(** * Gmail MCP server, [src/utl.ts]: outbound composer and inbound sanitizer

    A shallow embedding of [validateEmail], [createEmailMessage],
    [createEmailWithNodemailer] and [makeEmailBodyLLMSafe], with the
    regular expressions of the source interpreted by a backtracking matcher
    that follows the ECMAScript semantics of the constructs the source uses. *)

From Stdlib Require Import String Ascii.
From Stdlib Require Import List Bool Arith ZArith NArith Lia.
Import ListNotations.

Set Implicit Arguments.
Local Open Scope Z_scope.

(** ** JavaScript strings

    A JavaScript string is a sequence of UTF-16 code units; [length],
    [slice], [search] and the regular expressions (none has the [u] flag)
    all count and match code units. *)

Definition char := N.
Definition jsstring := list char.

(** An ASCII literal of the source as a JavaScript string. *)
Definition js (s : string) : jsstring :=
  map N_of_ascii (list_ascii_of_string s).

Definition CR : char := 13%N.
Definition LF : char := 10%N.

Definition str_eqb (a b : jsstring) : bool :=
  if list_eq_dec N.eq_dec a b then true else false.

(** [!s] is false exactly for the empty string. *)
Definition nonempty (s : jsstring) : bool :=
  match s with [] => false | _ :: _ => true end.

(** ECMAScript LineTerminator: LF, CR, U+2028, U+2029. *)
Definition isLineTerminator (c : char) : bool :=
  ((c =? 10) || (c =? 13) || (c =? 8232) || (c =? 8233))%N.

(** ECMAScript WhiteSpace or LineTerminator: the set of [\s] and of the
    characters [trim] removes. *)
Definition isSpace (c : char) : bool :=
  ((c =? 9) || (c =? 10) || (c =? 11) || (c =? 12) || (c =? 13) || (c =? 32)
   || (c =? 160) || (c =? 5760) || ((8192 <=? c) && (c <=? 8202))
   || (c =? 8232) || (c =? 8233) || (c =? 8239) || (c =? 8287)
   || (c =? 12288) || (c =? 65279))%N.

Fixpoint dropWhile (f : char -> bool) (s : jsstring) : jsstring :=
  match s with
  | [] => []
  | c :: s' => if f c then dropWhile f s' else s
  end.

Definition trimStart (s : jsstring) : jsstring := dropWhile isSpace s.
Definition trimEnd (s : jsstring) : jsstring := rev (dropWhile isSpace (rev s)).
Definition trim (s : jsstring) : jsstring := trimEnd (trimStart s).

(** [s.slice(start, end)]: a negative index counts from the end of [s]. *)
Definition clampIndex (len i : Z) : Z :=
  if i <? 0 then Z.max (len + i) 0 else Z.min i len.

Definition slice (s : jsstring) (start stop : Z) : jsstring :=
  let len := Z.of_nat (length s) in
  let from := clampIndex len start in
  let to := clampIndex len stop in
  firstn (Z.to_nat (to - from)) (skipn (Z.to_nat from) s).

(** [s.substring(n)] for a non-negative literal [n]. *)
Definition substringFrom (n : nat) (s : jsstring) : jsstring := skipn n s.

(** [xs.join(sep)] on an array of strings. *)
Fixpoint join (sep : jsstring) (xs : list jsstring) : jsstring :=
  match xs with
  | [] => []
  | [x] => x
  | x :: xs' => x ++ sep ++ join sep xs'
  end.

(** ** Regular expressions

    The constructs that occur in [utl.ts]: literal characters, [.],
    character classes with ranges, [\s] and [\S], sequence, alternation,
    greedy and lazy repetition, [^] and [$], and the flags [i] and [m]. The
    one group of the source, [(p|div|...)], is never read back, so groups are
    not recorded. *)

Inductive citem :=
| CChar (c : char)
| CRange (lo hi : char)
| CSpace
| CNonSpace.

Inductive regex :=
| Eps
| Chr (c : char)
| Dot
| Class (negated : bool) (items : list citem)
| Seq (r1 r2 : regex)
| Alt (r1 r2 : regex)
| Star (greedy : bool) (r : regex)
| Bol
| Eol.

Record RegExp := mkRegExp {
  source : regex;
  ignoreCase : bool;
  multiline : bool
}.

Definition Plus (r : regex) : regex := Seq r (Star true r).
Definition Opt (r : regex) : regex := Alt r Eps.

Fixpoint Lit_chars (cs : jsstring) : regex :=
  match cs with
  | [] => Eps
  | [c] => Chr c
  | c :: cs' => Seq (Chr c) (Lit_chars cs')
  end.

Definition Lit (s : string) : regex := Lit_chars (js s).

Fixpoint Seqs (rs : list regex) : regex :=
  match rs with
  | [] => Eps
  | [r] => r
  | r :: rs' => Seq r (Seqs rs')
  end.

Definition isLower (c : char) : bool := ((97 <=? c) && (c <=? 122))%N.
Definition isUpper (c : char) : bool := ((65 <=? c) && (c <=? 90))%N.

(** Canonicalize of a pattern without the [u] flag maps a character to its
    upper case unless that leaves ASCII-land the wrong way: a character
    above U+007F is never sent to an ASCII one. Every pattern of the source
    holds ASCII characters only, so against them the upper-casing of the
    ASCII letters decides every comparison; characters above U+007F are
    left as they are. *)
Definition canonicalize (ic : bool) (c : char) : char :=
  if ic && isLower c then (c - 32)%N else c.

Definition swapCase (c : char) : char :=
  if isLower c then (c - 32)%N else if isUpper c then (c + 32)%N else c.

Definition item_has (it : citem) (c : char) : bool :=
  match it with
  | CChar x => (c =? x)%N
  | CRange lo hi => ((lo <=? c) && (c <=? hi))%N
  | CSpace => isSpace c
  | CNonSpace => negb (isSpace c)
  end.

Definition set_has (items : list citem) (c : char) : bool :=
  existsb (fun it => item_has it c) items.

(** CharacterSetMatcher: some member of the set has the canonical form of
    the input character. *)
Definition class_match (ic negated : bool) (items : list citem) (c : char) : bool :=
  let found := set_has items c || (ic && set_has items (swapCase c)) in
  if negated then negb found else found.

Definition chr_match (ic : bool) (c x : char) : bool :=
  (canonicalize ic c =? canonicalize ic x)%N.

(** [^]: at the start of the input, or with [m] after a line terminator. *)
Definition at_bol (ml : bool) (prev : option char) : bool :=
  match prev with
  | None => true
  | Some c => ml && isLineTerminator c
  end.

(** [$]: at the end of the input, or with [m] before a line terminator. *)
Definition at_eol (ml : bool) (s : jsstring) : bool :=
  match s with
  | [] => true
  | c :: _ => ml && isLineTerminator c
  end.

(** A position of the input: the character before it, if any, and the rest
    of the input from it. *)
Definition cont := option char -> jsstring -> option jsstring.

(** RepeatMatcher for [r*] and [r*?], [once] being the matcher of [r]: an
    iteration that consumes nothing is given up (the empty check), so
    [length s] iterations are all a repetition can ever run from [s]. *)
Fixpoint repeatMatcher (once : option char -> jsstring -> cont -> option jsstring)
    (greedy : bool) (k : cont) (n : nat) (prev : option char) (s : jsstring)
    {struct n} : option jsstring :=
  match n with
  | O => k prev s
  | S n' =>
      let again :=
        once prev s
          (fun p1 s1 =>
             if (length s1 <? length s)%nat
             then repeatMatcher once greedy k n' p1 s1
             else None) in
      if greedy then
        match again with Some res => Some res | None => k prev s end
      else
        match k prev s with Some res => Some res | None => again end
  end.

(** The backtracking matcher, in continuation-passing style: the first
    alternative that lets the continuation succeed wins. *)
Fixpoint rmatch (ic ml : bool) (r : regex) (prev : option char) (s : jsstring)
    (k : cont) {struct r} : option jsstring :=
  match r with
  | Eps => k prev s
  | Chr c =>
      match s with
      | x :: s' => if chr_match ic c x then k (Some x) s' else None
      | [] => None
      end
  | Dot =>
      match s with
      | x :: s' => if isLineTerminator x then None else k (Some x) s'
      | [] => None
      end
  | Class negated items =>
      match s with
      | x :: s' => if class_match ic negated items x then k (Some x) s' else None
      | [] => None
      end
  | Seq r1 r2 => rmatch ic ml r1 prev s (fun p1 s1 => rmatch ic ml r2 p1 s1 k)
  | Alt r1 r2 =>
      match rmatch ic ml r1 prev s k with
      | Some res => Some res
      | None => rmatch ic ml r2 prev s k
      end
  | Star greedy r1 => repeatMatcher (rmatch ic ml r1) greedy k (length s) prev s
  | Bol => if at_bol ml prev then k prev s else None
  | Eol => if at_eol ml s then k prev s else None
  end.

Definition accept : cont := fun _ s => Some s.

(** A match of [re] starting at the position [(prev, s)]: what is left of
    the input after it. *)
Definition matchAt (re : RegExp) (prev : option char) (s : jsstring) : option jsstring :=
  rmatch (ignoreCase re) (multiline re) (source re) prev s accept.

(** [s.search(re)]: the index of the leftmost match, or [-1]. *)
Fixpoint searchFrom (re : RegExp) (prev : option char) (s : jsstring) (i : Z) : Z :=
  match matchAt re prev s with
  | Some _ => i
  | None =>
      match s with
      | [] => -1
      | c :: s' => searchFrom re (Some c) s' (i + 1)
      end
  end.

Definition search (re : RegExp) (s : jsstring) : Z := searchFrom re None s 0.

(** [re.test(s)] for a regular expression without the [g] flag. *)
Definition test (re : RegExp) (s : jsstring) : bool := negb (search re s =? -1).

(** [s.replace(re, rep)] for a regular expression with the [g] flag and a
    replacement without [$]: every match, left to right, each search
    resuming where the last match ended (one character further after an
    empty match). [skip] counts the characters of the current match still
    to be dropped. *)
Fixpoint replaceFrom (re : RegExp) (rep : jsstring) (prev : option char)
    (s : jsstring) (skip : nat) {struct s} : jsstring :=
  match skip with
  | S k =>
      match s with
      | [] => []
      | c :: s' => replaceFrom re rep (Some c) s' k
      end
  | O =>
      match matchAt re prev s with
      | Some rest =>
          let n := (length s - length rest)%nat in
          rep ++
          match s with
          | [] => []
          | c :: s' =>
              (if (n =? 0)%nat then [c] else []) ++
              replaceFrom re rep (Some c) s' (pred n)
          end
      | None =>
          match s with
          | [] => []
          | c :: s' => c :: replaceFrom re rep (Some c) s' 0
          end
      end
  end.

Definition replaceAll (re : RegExp) (rep : jsstring) (s : jsstring) : jsstring :=
  replaceFrom re rep None s 0.

(** ** Exceptions

    A call either returns a value or throws; an [async] function that
    throws returns a rejected promise, which is modelled the same way. *)

Inductive JsError :=
| Error (message : jsstring)
| TypeError (message : jsstring)
| RangeError (message : jsstring).

Inductive Result (A : Type) :=
| Ok (a : A)
| Throw (e : JsError).

Arguments Ok {A} a.
Arguments Throw {A} e.

Definition bind {A B : Type} (m : Result A) (f : A -> Result B) : Result B :=
  match m with
  | Ok a => f a
  | Throw e => Throw e
  end.

Notation "x <- m ;; f" := (bind m (fun x => f))
  (at level 61, m at next level, right associativity).
Notation "' p <- m ;; f" := (bind m (fun x => match x with p => f end))
  (at level 61, p pattern, m at next level, right associativity).

Definition ch (a : ascii) : char := N_of_ascii a.

Fixpoint Alts (rs : list regex) : regex :=
  match rs with
  | [] => Eps
  | [r] => r
  | r :: rs' => Alt r (Alts rs')
  end.

(** ** validateEmail *)

(** [[^\s@]] *)
Definition notSpaceNorAt : regex := Class true [CSpace; CChar (ch "@")].

(** [/^[^\s@]+@[^\s@]+\.[^\s@]+$/] *)
Definition emailRegex : RegExp :=
  mkRegExp
    (Seqs [Bol; Plus notSpaceNorAt; Chr (ch "@"); Plus notSpaceNorAt;
           Chr (ch "."); Plus notSpaceNorAt; Eol])
    false false.

Definition validateEmail (email : jsstring) : bool := test emailRegex email.

(** ** The request of the two composers ([validatedArgs]) *)

Record EmailArgs := mkEmailArgs {
  to : list jsstring;
  cc : option (list jsstring);
  bcc : option (list jsstring);
  subject : jsstring;
  body : jsstring;
  htmlBody : option jsstring;
  mimeType : option jsstring;
  inReplyTo : option jsstring;
  attachments : option (list jsstring)
}.

(** Truthiness of an optional string field: absent and [''] are falsy. *)
Definition present (o : option jsstring) : bool :=
  match o with
  | Some s => nonempty s
  | None => false
  end.

(** [o || d] on an optional string field. *)
Definition orElse (o : option jsstring) (d : jsstring) : jsstring :=
  match o with
  | Some s => if nonempty s then s else d
  | None => d
  end.

Definition CRLF : jsstring := [CR; LF].
Definition quote : char := 34%N.

(** The loop over [validatedArgs.to] that both composers start with: it
    throws at the first address the validator rejects. *)
Fixpoint validateRecipients (emails : list jsstring) : Result unit :=
  match emails with
  | [] => Ok tt
  | email :: rest =>
      if negb (validateEmail email)
      then Throw (Error (js "Recipient email address is invalid: " ++ email))
      else validateRecipients rest
  end.

(** What nodemailer is handed. *)
Record Attachment := mkAttachment {
  filename : jsstring;
  path : jsstring
}.

Record MailOptions := mkMailOptions {
  mo_from : jsstring;
  mo_to : jsstring;
  mo_cc : option jsstring;
  mo_bcc : option jsstring;
  mo_subject : jsstring;
  mo_text : jsstring;
  mo_html : option jsstring;
  mo_attachments : list Attachment;
  mo_inReplyTo : option jsstring;
  mo_references : option jsstring
}.

(** ** The MIME part tree ([payload: any])

    The payload is untyped in the source, so it is modelled as a JavaScript
    value. An object is the map from property names to values, [undefined]
    where the object has no such property. Numbers only matter through
    their truthiness; [NaN] is not represented. *)

#[local] Unset Elimination Schemes.
Inductive JsVal :=
| JUndefined
| JNull
| JBool (b : bool)
| JNum (n : Z)
| JStr (s : jsstring)
| JArr (elems : list JsVal)
| JObj (props : string -> JsVal).
#[local] Set Elimination Schemes.

Definition truthy (v : JsVal) : bool :=
  match v with
  | JUndefined | JNull => false
  | JBool b => b
  | JNum n => negb (n =? 0)
  | JStr s => nonempty s
  | JArr _ | JObj _ => true
  end.

(** An object literal. *)
Fixpoint lookupProp (fields : list (string * JsVal)) (name : string) : JsVal :=
  match fields with
  | [] => JUndefined
  | (k, v) :: rest => if String.eqb k name then v else lookupProp rest name
  end.

Definition obj (fields : list (string * JsVal)) : JsVal := JObj (lookupProp fields).

(** [v.name] on a value that is neither [undefined] nor [null]: primitives
    and arrays have none of the properties the sanitizer reads. *)
Definition prop (v : JsVal) (name : string) : JsVal :=
  match v with
  | JObj props => props name
  | _ => JUndefined
  end.

(** [v?.name] *)
Definition optProp (v : JsVal) (name : string) : JsVal :=
  match v with
  | JUndefined | JNull => JUndefined
  | _ => prop v name
  end.

(** [v === s] for a string literal [s]. *)
Definition isStr (v : JsVal) (s : jsstring) : bool :=
  match v with
  | JStr x => str_eqb x s
  | _ => false
  end.

(** The loop of [extract] over [part.parts], [extractPart] being the
    recursive call. *)
Section ExtractEach.

Variable extractPart : JsVal -> Result (jsstring * jsstring).

Fixpoint extractEach (parts : list JsVal) (text html : jsstring)
    : Result (jsstring * jsstring) :=
  match parts with
  | [] => Ok (text, html)
  | p :: rest =>
      '(ctext, chtml) <- extractPart p ;;
      extractEach rest (text ++ ctext) (html ++ chtml)
  end.

End ExtractEach.

(** ** The functions of [utl.ts] *)

Section Utl.

(** The platform the module runs on: Node's [Buffer], [fs] and [path], and
    nodemailer's stream transport. *)

(** [Buffer.from(text).toString('base64')] *)
Variable utf8ToBase64 : jsstring -> jsstring.
(** [Buffer.from(data, 'base64').toString('utf8')] *)
Variable base64ToUtf8 : jsstring -> jsstring.
(** [fs.existsSync(filePath)] *)
Variable existsSync : jsstring -> bool.
(** [path.basename(filePath)] *)
Variable basename : jsstring -> jsstring.
(** [(await transporter.sendMail(mailOptions)).message.toString()] *)
Variable sendMail : MailOptions -> jsstring.

(** [/[^\x00-\x7F]/] *)
Definition nonAsciiRegex : RegExp :=
  mkRegExp (Class true [CRange 0%N 127%N]) false false.

Definition encodeEmailHeader (text : jsstring) : jsstring :=
  if test nonAsciiRegex text
  then js "=?UTF-8?B?" ++ utf8ToBase64 text ++ js "?="
  else text.

(** The header lines of [createEmailMessage], before [filter(Boolean)]. *)
Definition headerLines (validatedArgs : EmailArgs) (encodedSubject : jsstring)
    : list jsstring :=
  [ js "From: me";
    js "To: " ++ join (js ", ") (to validatedArgs);
    match cc validatedArgs with
    | Some l => js "Cc: " ++ join (js ", ") l
    | None => []
    end;
    match bcc validatedArgs with
    | Some l => js "Bcc: " ++ join (js ", ") l
    | None => []
    end;
    js "Subject: " ++ encodedSubject;
    match inReplyTo validatedArgs with
    | Some ref => if nonempty ref then js "In-Reply-To: " ++ ref else []
    | None => []
    end;
    match inReplyTo validatedArgs with
    | Some ref => if nonempty ref then js "References: " ++ ref else []
    | None => []
    end;
    js "MIME-Version: 1.0" ].

(** The lines [createEmailMessage] pushes after the headers, by the final
    value of [mimeType]. *)
Definition bodyLines (validatedArgs : EmailArgs) (mimeType boundary : jsstring)
    : list jsstring :=
  if str_eqb mimeType (js "multipart/alternative") then
    [ js "Content-Type: multipart/alternative; boundary=" ++ [quote] ++ boundary ++ [quote];
      [];
      js "--" ++ boundary;
      js "Content-Type: text/plain; charset=UTF-8";
      js "Content-Transfer-Encoding: 7bit";
      [];
      body validatedArgs;
      [];
      js "--" ++ boundary;
      js "Content-Type: text/html; charset=UTF-8";
      js "Content-Transfer-Encoding: 7bit";
      [];
      orElse (htmlBody validatedArgs) (body validatedArgs);
      [];
      js "--" ++ boundary ++ js "--" ]
  else if str_eqb mimeType (js "text/html") then
    [ js "Content-Type: text/html; charset=UTF-8";
      js "Content-Transfer-Encoding: 7bit";
      [];
      orElse (htmlBody validatedArgs) (body validatedArgs) ]
  else
    [ js "Content-Type: text/plain; charset=UTF-8";
      js "Content-Transfer-Encoding: 7bit";
      [];
      body validatedArgs ].

(** The value of [mimeType] after the two assignments at the top of
    [createEmailMessage]. *)
Definition chosenMimeType (validatedArgs : EmailArgs) : jsstring :=
  let mimeType := orElse (mimeType validatedArgs) (js "text/plain") in
  if present (htmlBody validatedArgs) && negb (str_eqb mimeType (js "text/plain"))
  then js "multipart/alternative"
  else mimeType.

(** [emailParts] at the [return] of [createEmailMessage]. [random36] is
    the value of [Math.random().toString(36)] drawn by the call. *)
Definition emailParts (random36 : jsstring) (validatedArgs : EmailArgs)
    : Result (list jsstring) :=
  let encodedSubject := encodeEmailHeader (subject validatedArgs) in
  let mimeType := chosenMimeType validatedArgs in
  let boundary := js "----=_NextPart_" ++ substringFrom 2 random36 in
  _ <- validateRecipients (to validatedArgs) ;;
  Ok (filter nonempty (headerLines validatedArgs encodedSubject)
      ++ bodyLines validatedArgs mimeType boundary).

Definition createEmailMessage (random36 : jsstring) (validatedArgs : EmailArgs)
    : Result jsstring :=
  lines <- emailParts random36 validatedArgs ;;
  Ok (join CRLF lines).

(** The loop over [validatedArgs.attachments]. *)
Fixpoint prepareAttachments (paths : list jsstring) (acc : list Attachment)
    : Result (list Attachment) :=
  match paths with
  | [] => Ok acc
  | filePath :: rest =>
      if negb (existsSync filePath)
      then Throw (Error (js "File does not exist: " ++ filePath))
      else prepareAttachments rest
             (acc ++ [mkAttachment (basename filePath) filePath])
  end.

Definition optJoin (o : option (list jsstring)) : option jsstring :=
  option_map (join (js ", ")) o.

Definition mailOptionsOf (validatedArgs : EmailArgs) (atts : list Attachment)
    : MailOptions :=
  {| mo_from := js "me";
     mo_to := join (js ", ") (to validatedArgs);
     mo_cc := optJoin (cc validatedArgs);
     mo_bcc := optJoin (bcc validatedArgs);
     mo_subject := subject validatedArgs;
     mo_text := body validatedArgs;
     mo_html := htmlBody validatedArgs;
     mo_attachments := atts;
     mo_inReplyTo := inReplyTo validatedArgs;
     mo_references := inReplyTo validatedArgs |}.

Definition createEmailWithNodemailer (validatedArgs : EmailArgs) : Result jsstring :=
  _ <- validateRecipients (to validatedArgs) ;;
  atts <- match attachments validatedArgs with
          | Some paths => prepareAttachments paths []
          | None =>
              (* [for ... of undefined] *)
              Throw (TypeError (js "validatedArgs.attachments is not iterable"))
          end ;;
  Ok (sendMail (mailOptionsOf validatedArgs atts)).

(** *** makeEmailBodyLLMSafe and its helpers *)

(** [/-/g] and [/_/g] *)
Definition dashRegex : RegExp := mkRegExp (Chr (ch "-")) false false.
Definition underscoreRegex : RegExp := mkRegExp (Chr (ch "_")) false false.

Definition decodeBody (data : JsVal) : Result jsstring :=
  if negb (truthy data) then Ok []
  else
    match data with
    | JStr s =>
        Ok (base64ToUtf8
              (replaceAll underscoreRegex (js "/") (replaceAll dashRegex (js "+") s)))
    | _ => Throw (TypeError (js "data.replace is not a function"))
    end.

Fixpoint extract (part : JsVal) : Result (jsstring * jsstring) :=
  match part with
  | JObj props =>
      let mime := props "mimeType"%string in
      let data := optProp (props "body"%string) "data" in
      '(text, html) <-
        (if isStr mime (js "text/plain") && truthy data then
           t <- decodeBody data ;; Ok (t, [])
         else if isStr mime (js "text/html") && truthy data then
           h <- decodeBody data ;; Ok ([], h)
         else Ok ([], [])) ;;
      match props "parts"%string with
      | JArr parts => extractEach extract parts text html
      | _ => Ok (text, html)
      end
  | _ =>
      (* a falsy part, or a value on which [mimeType], [body] and [parts]
         are all undefined *)
      Ok ([], [])
  end.

Definition anyChar : regex := Class false [CSpace; CNonSpace].
Definition spaceClass : regex := Class false [CSpace].

(** [/<style[\s\S]*?<\/style>/gi] *)
Definition styleRegex : RegExp :=
  mkRegExp (Seqs [Lit "<style"; Star false anyChar; Lit "</style>"]) true false.
(** [/<script[\s\S]*?<\/script>/gi] *)
Definition scriptRegex : RegExp :=
  mkRegExp (Seqs [Lit "<script"; Star false anyChar; Lit "</script>"]) true false.
(** [/<\/(p|div|li|h[1-6]|br|tr)>/gi] *)
Definition closingTagRegex : RegExp :=
  mkRegExp
    (Seqs [Lit "</";
           Alts [Lit "p"; Lit "div"; Lit "li";
                 Seq (Chr (ch "h")) (Class false [CRange (ch "1") (ch "6")]);
                 Lit "br"; Lit "tr"];
           Chr (ch ">")])
    true false.
(** [/<li>/gi] *)
Definition liRegex : RegExp := mkRegExp (Lit "<li>") true false.
(** [/<[^>]+>/g] *)
Definition tagRegex : RegExp :=
  mkRegExp (Seqs [Chr (ch "<"); Plus (Class true [CChar (ch ">")]); Chr (ch ">")])
    false false.
(** [/\r?\n\s*\r?\n\s*/g] *)
Definition blankLinesRegex : RegExp :=
  mkRegExp
    (Seqs [Opt (Chr CR); Chr LF; Star true spaceClass;
           Opt (Chr CR); Chr LF; Star true spaceClass])
    false false.
(** [/[ \t]+/g] *)
Definition blanksRegex : RegExp :=
  mkRegExp (Plus (Class false [CChar 32%N; CChar 9%N])) false false.

Definition htmlToText (html : jsstring) : jsstring :=
  if negb (nonempty html) then []
  else
    let s := replaceAll scriptRegex [] (replaceAll styleRegex [] html) in
    let s := replaceAll liRegex (js "- ") (replaceAll closingTagRegex [LF] s) in
    let s := replaceAll tagRegex (js " ") s in
    let s := replaceAll blankLinesRegex [LF; LF] s in
    let s := replaceAll blanksRegex (js " ") s in
    trim s.

(** The loop shared by [stripQuoted] and [stripFooters]: the markers are
    tried in the order of the array, and the first one that matches anywhere
    decides. [None] when the loop runs to its end. *)
Fixpoint firstMarker (markers : list RegExp) (s : jsstring) : option jsstring :=
  match markers with
  | [] => None
  | re :: rest =>
      let idx := search re s in
      if negb (idx =? -1) then Some (trim (slice s 0 idx))
      else firstMarker rest s
  end.

Definition quotedMarkers : list RegExp :=
  [ (* /^On .* wrote:$/m *)
    mkRegExp (Seqs [Bol; Lit "On "; Star true Dot; Lit " wrote:"; Eol]) false true;
    (* /^From: .*$/m *)
    mkRegExp (Seqs [Bol; Lit "From: "; Star true Dot; Eol]) false true;
    (* /^-----Original Message-----$/m *)
    mkRegExp (Seqs [Bol; Lit "-----Original Message-----"; Eol]) false true;
    (* /^> ?On .* wrote:$/m *)
    mkRegExp
      (Seqs [Bol; Chr (ch ">"); Opt (Chr 32%N); Lit "On "; Star true Dot;
             Lit " wrote:"; Eol])
      false true ].

Definition stripQuoted (s : jsstring) : jsstring :=
  match firstMarker quotedMarkers s with
  | Some r => r
  | None => trim s
  end.

Definition footerMarkers : list RegExp :=
  [ mkRegExp (Lit "This e-mail and any attachments are confidential") true false;
    mkRegExp (Lit "This email and any attachments are confidential") true false;
    mkRegExp (Lit "Please consider the environment before printing this email") true false;
    mkRegExp (Lit "To unsubscribe") true false;
    mkRegExp (Lit "Unsubscribe here") true false ].

Definition stripFooters (s : jsstring) : jsstring :=
  match firstMarker footerMarkers s with
  | Some r => r
  | None => s
  end.

Definition truncationMarker : jsstring := [LF; LF] ++ js "[truncated for model]".

Definition truncate (MAX_CHARS : Z) (s : jsstring) : jsstring :=
  if Z.of_nat (length s) <=? MAX_CHARS then s
  else slice s 0 MAX_CHARS ++ truncationMarker.

(** [opts?.maxChars ?? 6000] *)
Definition maxCharsOf (opts : option (option Z)) : Z :=
  match opts with
  | Some (Some n) => n
  | _ => 6000
  end.

Definition makeEmailBodyLLMSafe (payload : JsVal) (opts : option (option Z))
    : Result jsstring :=
  let MAX_CHARS := maxCharsOf opts in
  '(text, html) <- extract (if truthy payload then payload else obj []) ;;
  let body := if nonempty text then trim text else [] in
  let body := if nonempty body then body else [] in
  let body :=
    if negb (nonempty body) && nonempty html then htmlToText html else body in
  let body := stripQuoted body in
  let body := stripFooters body in
  let body := truncate MAX_CHARS body in
  Ok body.

End Utl.

(** ** The call stack and the renderer's failures

    Two things the definitions above leave aside. [extract] calls itself
    once per level of the part tree, and a JavaScript engine gives a call
    only as much stack as it has: past that the call throws a
    [RangeError]. And [transporter.sendMail] returns a promise that
    nodemailer may reject, for one with an attachment path that exists and
    cannot be read as a file. The two functions are given again with these
    effects; they agree with the definitions above whenever the stack
    suffices and the promise is fulfilled. *)

Section OnStack.

Variable base64ToUtf8 : jsstring -> jsstring.

(** [extract] on a stack with room for [frames] nested calls of it, each
    with the room its own calls of [decodeBody] need. *)
Fixpoint extractOnStack (frames : nat) (part : JsVal) {struct frames}
    : Result (jsstring * jsstring) :=
  match frames with
  | O => Throw (RangeError (js "Maximum call stack size exceeded"))
  | S below =>
      match part with
      | JObj props =>
          let mime := props "mimeType"%string in
          let data := optProp (props "body"%string) "data" in
          '(text, html) <-
            (if isStr mime (js "text/plain") && truthy data then
               t <- decodeBody base64ToUtf8 data ;; Ok (t, [])
             else if isStr mime (js "text/html") && truthy data then
               h <- decodeBody base64ToUtf8 data ;; Ok ([], h)
             else Ok ([], [])) ;;
          match props "parts"%string with
          | JArr parts => extractEach (extractOnStack below) parts text html
          | _ => Ok (text, html)
          end
      | _ => Ok ([], [])
      end
  end.

Definition makeEmailBodyLLMSafeOnStack (frames : nat) (payload : JsVal)
    (opts : option (option Z)) : Result jsstring :=
  let MAX_CHARS := maxCharsOf opts in
  '(text, html) <-
    extractOnStack frames (if truthy payload then payload else obj []) ;;
  let body := if nonempty text then trim text else [] in
  let body := if nonempty body then body else [] in
  let body :=
    if negb (nonempty body) && nonempty html then htmlToText html else body in
  let body := stripQuoted body in
  let body := stripFooters body in
  let body := truncate MAX_CHARS body in
  Ok body.

End OnStack.

Section Rejecting.

Variable existsSync : jsstring -> bool.
Variable basename : jsstring -> jsstring.
(** [await transporter.sendMail(mailOptions)] and then
    [info.message.toString()]: the raw message, or the error the promise
    is rejected with. *)
Variable sendMailAsync : MailOptions -> Result jsstring.

Definition createEmailWithNodemailerAsync (validatedArgs : EmailArgs)
    : Result jsstring :=
  _ <- validateRecipients (to validatedArgs) ;;
  atts <- match attachments validatedArgs with
          | Some paths => prepareAttachments existsSync basename paths []
          | None =>
              (* [for ... of undefined] *)
              Throw (TypeError (js "validatedArgs.attachments is not iterable"))
          end ;;
  rawMessage <- sendMailAsync (mailOptionsOf validatedArgs atts) ;;
  Ok rawMessage.

End Rejecting.

(** ** A model of the platform

    Concrete collaborators to run the functions on: Node's lenient base64
    decoder (characters outside the alphabet are skipped, [=] ends the
    input, the URL-safe alphabet is accepted too), the UTF-8 decoder that
    replaces every ill-formed sequence by U+FFFD, their inverses, POSIX
    [basename], a file system given by the list of its paths, and a renderer
    that prints the fields it is handed (a stand-in: nodemailer's own
    output has other headers). The theorems below hold for every choice of
    collaborators; these serve to evaluate the code. *)

Module Node.

Local Open Scope N_scope.

Definition sextet (c : char) : option N :=
  if (65 <=? c) && (c <=? 90) then Some (c - 65)
  else if (97 <=? c) && (c <=? 122) then Some (c - 71)
  else if (48 <=? c) && (c <=? 57) then Some (c + 4)
  else if (c =? 43) || (c =? 45) then Some 62
  else if (c =? 47) || (c =? 95) then Some 63
  else None.

(** The decoder reads the low byte of a code unit. *)
Fixpoint sextets (s : jsstring) : list N :=
  match s with
  | [] => []
  | c :: s' =>
      let b := c mod 256 in
      if b =? 61 then []
      else match sextet b with
           | Some v => v :: sextets s'
           | None => sextets s'
           end
  end.

Fixpoint unpack (v : list N) : list N :=
  match v with
  | a :: b :: c :: d :: rest =>
      [a * 4 + b / 16; (b mod 16) * 16 + c / 4; (c mod 4) * 64 + d] ++ unpack rest
  | [a; b; c] => [a * 4 + b / 16; (b mod 16) * 16 + c / 4]
  | [a; b] => [a * 4 + b / 16]
  | _ => []
  end.

Definition base64Decode (s : jsstring) : list N := unpack (sextets s).

Record utf8State := mkUtf8State {
  codePoint : N;
  needed : nat;
  lower : N;
  upper : N
}.

Definition idle : utf8State := mkUtf8State 0 0 128 191.

Definition lead (b : N) : list N * utf8State :=
  if b <=? 127 then ([b], idle)
  else if (194 <=? b) && (b <=? 223) then ([], mkUtf8State (b - 192) 1 128 191)
  else if (224 <=? b) && (b <=? 239) then
    ([], mkUtf8State (b - 224) 2 (if b =? 224 then 160 else 128)
                     (if b =? 237 then 159 else 191))
  else if (240 <=? b) && (b <=? 244) then
    ([], mkUtf8State (b - 240) 3 (if b =? 240 then 144 else 128)
                     (if b =? 244 then 143 else 191))
  else ([65533], idle).

Fixpoint utf8Decode (st : utf8State) (bytes : list N) : list N :=
  match bytes with
  | [] => match needed st with O => [] | S _ => [65533] end
  | b :: rest =>
      match needed st with
      | O => let (out, st') := lead b in out ++ utf8Decode st' rest
      | S n =>
          if (lower st <=? b) && (b <=? upper st) then
            let cp := codePoint st * 64 + (b - 128) in
            match n with
            | O => cp :: utf8Decode idle rest
            | S _ => utf8Decode (mkUtf8State cp n 128 191) rest
            end
          else
            let (out, st') := lead b in 65533 :: out ++ utf8Decode st' rest
      end
  end.

Definition utf16Of (cp : N) : jsstring :=
  if cp <? 65536 then [cp]
  else [55296 + (cp - 65536) / 1024; 56320 + (cp - 65536) mod 1024].

Definition base64ToUtf8 (data : jsstring) : jsstring :=
  flat_map utf16Of (utf8Decode idle (base64Decode data)).

Definition isHigh (c : char) : bool := (55296 <=? c) && (c <=? 56319).
Definition isLow (c : char) : bool := (56320 <=? c) && (c <=? 57343).

Fixpoint codePoints (s : jsstring) : list N :=
  match s with
  | [] => []
  | c :: s' =>
      if isHigh c then
        match s' with
        | d :: s'' =>
            if isLow d
            then (65536 + (c - 55296) * 1024 + (d - 56320)) :: codePoints s''
            else 65533 :: codePoints s'
        | [] => [65533]
        end
      else if isLow c then 65533 :: codePoints s'
      else c :: codePoints s'
  end.

Definition utf8Of (cp : N) : list N :=
  if cp <? 128 then [cp]
  else if cp <? 2048 then [192 + cp / 64; 128 + cp mod 64]
  else if cp <? 65536 then [224 + cp / 4096; 128 + (cp / 64) mod 64; 128 + cp mod 64]
  else [240 + cp / 262144; 128 + (cp / 4096) mod 64; 128 + (cp / 64) mod 64;
        128 + cp mod 64].

Definition digit64 (v : N) : char :=
  if v <? 26 then v + 65
  else if v <? 52 then v + 71
  else if v <? 62 then v - 4
  else if v =? 62 then 43 else 47.

Fixpoint pack (bytes : list N) : jsstring :=
  match bytes with
  | a :: b :: c :: rest =>
      [digit64 (a / 4); digit64 ((a mod 4) * 16 + b / 16);
       digit64 ((b mod 16) * 4 + c / 64); digit64 (c mod 64)] ++ pack rest
  | [a; b] =>
      [digit64 (a / 4); digit64 ((a mod 4) * 16 + b / 16);
       digit64 ((b mod 16) * 4); 61]
  | [a] => [digit64 (a / 4); digit64 ((a mod 4) * 16); 61; 61]
  | [] => []
  end.

Definition utf8ToBase64 (text : jsstring) : jsstring :=
  pack (flat_map utf8Of (codePoints text)).

Definition isSlash (c : char) : bool := c =? 47.

Fixpoint takeWhile (f : char -> bool) (s : jsstring) : jsstring :=
  match s with
  | [] => []
  | c :: s' => if f c then c :: takeWhile f s' else []
  end.

Definition basename (p : jsstring) : jsstring :=
  rev (takeWhile (fun c => negb (isSlash c)) (dropWhile isSlash (rev p))).

Definition existsIn (files : list jsstring) (p : jsstring) : bool :=
  existsb (str_eqb p) files.

Definition headerOpt (name : string) (o : option jsstring) : list jsstring :=
  match o with
  | Some v => [js name ++ v]
  | None => []
  end.

Definition render (m : MailOptions) : jsstring :=
  join [LF]
    ([js "From: " ++ mo_from m; js "To: " ++ mo_to m]
     ++ headerOpt "Cc: " (mo_cc m) ++ headerOpt "Bcc: " (mo_bcc m)
     ++ [js "Subject: " ++ mo_subject m]
     ++ headerOpt "In-Reply-To: " (mo_inReplyTo m)
     ++ headerOpt "References: " (mo_references m)
     ++ map (fun a => js "X-Attachment: " ++ filename a) (mo_attachments m)
     ++ [[]; mo_text m]
     ++ match mo_html m with Some h => [h] | None => [] end).

(** A renderer whose promise is rejected when an attachment path is one of
    the directories [dirs], as reading it fails. *)
Definition renderFiles (dirs : list jsstring) (m : MailOptions) : Result jsstring :=
  if existsb (fun a => existsIn dirs (path a)) (mo_attachments m)
  then Throw (Error (js "EISDIR: illegal operation on a directory, read"))
  else Ok (render m).

End Node.

(** * Notions the properties are stated with *)

(** ** Matching as a relation

    [Matches ic ml r p s p' s']: under the flags [ic] and [ml] the pattern
    [r] can match from the position [(p, s)] to the position [(p', s')]. *)

Inductive Matches (ic ml : bool)
    : regex -> option char -> jsstring -> option char -> jsstring -> Prop :=
| M_Eps p s : Matches ic ml Eps p s p s
| M_Chr c x p s : chr_match ic c x = true -> Matches ic ml (Chr c) p (x :: s) (Some x) s
| M_Dot x p s : isLineTerminator x = false -> Matches ic ml Dot p (x :: s) (Some x) s
| M_Class neg items x p s :
    class_match ic neg items x = true ->
    Matches ic ml (Class neg items) p (x :: s) (Some x) s
| M_Seq r1 r2 p s p1 s1 p2 s2 :
    Matches ic ml r1 p s p1 s1 -> Matches ic ml r2 p1 s1 p2 s2 ->
    Matches ic ml (Seq r1 r2) p s p2 s2
| M_AltL r1 r2 p s p' s' :
    Matches ic ml r1 p s p' s' -> Matches ic ml (Alt r1 r2) p s p' s'
| M_AltR r1 r2 p s p' s' :
    Matches ic ml r2 p s p' s' -> Matches ic ml (Alt r1 r2) p s p' s'
| M_StarDone g r p s : Matches ic ml (Star g r) p s p s
| M_StarMore g r p s p1 s1 p2 s2 :
    Matches ic ml r p s p1 s1 -> (length s1 < length s)%nat ->
    Matches ic ml (Star g r) p1 s1 p2 s2 ->
    Matches ic ml (Star g r) p s p2 s2
| M_Bol p s : at_bol ml p = true -> Matches ic ml Bol p s p s
| M_Eol p s : at_eol ml s = true -> Matches ic ml Eol p s p s.

Definition Accepted (ic ml : bool) (r : regex) (p : option char) (s : jsstring)
    (k : cont) : Prop :=
  exists p' s', Matches ic ml r p s p' s' /\ k p' s' <> None.

(** ** Positions of a text *)

(** The position [i] characters after [(prev, s)]. *)
Fixpoint stateAt (prev : option char) (s : jsstring) (i : nat) {struct i}
    : option char * jsstring :=
  match i with
  | O => (prev, s)
  | S i' =>
      match s with
      | c :: s' => stateAt (Some c) s' i'
      | [] => (prev, s)
      end
  end.

Definition matchesFrom (re : RegExp) (prev : option char) (s : jsstring) (i : nat) : bool :=
  match matchAt re (fst (stateAt prev s i)) (snd (stateAt prev s i)) with
  | Some _ => true
  | None => false
  end.

(** [re] has a match that starts at index [i] of [s]. *)
Definition matchesAt (re : RegExp) (s : jsstring) (i : nat) : bool :=
  matchesFrom re None s i.

(** ** Shapes of an address *)

(** A character that is neither white space nor [@]. *)
Definition plainChar (c : char) : bool :=
  negb (isSpace c) && negb (c =? ch "@")%N.

(** What the regular expression of [validateEmail] accepts: a non-empty
    local part, [@], and a domain with a [.] that has at least one
    character on each side, all parts free of white space and [@]. *)
Definition addressShape (e : jsstring) : Prop :=
  exists l d1 d2,
    e = l ++ ch "@" :: d1 ++ ch "." :: d2 /\
    l <> [] /\ d1 <> [] /\ d2 <> [] /\
    forallb plainChar l = true /\ forallb plainChar d1 = true /\
    forallb plainChar d2 = true.

(** The shape as the specification words it: [local-part@domain], no
    white space anywhere, no [@] inside the local part or the domain, and
    at least one [.] in the domain. *)
Definition specAddressShape (e : jsstring) : Prop :=
  exists l d,
    e = l ++ ch "@" :: d /\ l <> [] /\
    (forall c, In c e -> isSpace c = false) /\
    ~ In (ch "@") l /\ ~ In (ch "@") d /\ In (ch ".") d.

(** ** Part trees *)

(** The part trees of the mail API: [mimeType] a string, [body.data] a
    string, [parts] an array of parts, each of them optional. *)
Definition optString (v : JsVal) : bool :=
  match v with
  | JUndefined | JStr _ => true
  | _ => false
  end.

Definition wfBody (v : JsVal) : bool :=
  match v with
  | JUndefined => true
  | JObj props => optString (props "data"%string)
  | _ => false
  end.

Fixpoint wfPart (v : JsVal) : bool :=
  match v with
  | JObj props =>
      optString (props "mimeType"%string) && wfBody (props "body"%string) &&
      match props "parts"%string with
      | JUndefined => true
      | JArr parts => forallb wfPart parts
      | _ => false
      end
  | _ => false
  end.

(** A payload is a part tree, or [null] or [undefined]. *)
Definition wfPayload (v : JsVal) : bool :=
  match v with
  | JUndefined | JNull => true
  | _ => wfPart v
  end.

(** A part without body data and without sub-parts. *)
Definition barePart (v : JsVal) : bool :=
  match v with
  | JUndefined | JNull => true
  | JObj props =>
      negb (truthy (optProp (props "body"%string) "data")) &&
      match props "parts"%string with
      | JArr _ => false
      | _ => true
      end
  | _ => false
  end.

Definition Returns {A : Type} (r : Result A) : Prop := exists a, r = Ok a.

(** What [decodeBody] hands to the decoder: the data with [-] and [_]
    put back to [+] and [/]. *)
Definition standardAlphabet (data : jsstring) : jsstring :=
  replaceAll underscoreRegex (js "/") (replaceAll dashRegex (js "+") data).

(** ** Truncation points *)

(** The truncation point as the specification words it: the earliest match
    position over all the markers together, [-1] when none matches. *)
Definition earliestMatch (markers : list RegExp) (s : jsstring) : Z :=
  fold_right
    (fun re best =>
       let idx := search re s in
       if idx =? -1 then best
       else if best =? -1 then idx
       else Z.min idx best)
    (-1) markers.

Definition stripAtEarliest (markers : list RegExp) (s : jsstring) : jsstring :=
  let idx := earliestMatch markers s in
  if idx =? -1 then trim s else trim (slice s 0 idx).

(** ** The two errors of the composers *)

Definition invalidRecipient (email : jsstring) : JsError :=
  Error (js "Recipient email address is invalid: " ++ email).

Definition missingFile (filePath : jsstring) : JsError :=
  Error (js "File does not exist: " ++ filePath).

(** ** Sample inputs *)

Definition leaf (mime : string) (data : jsstring) : JsVal :=
  obj [("mimeType"%string, JStr (js mime));
       ("body"%string, obj [("data"%string, JStr data)])].

Definition container (mime : string) (parts : list JsVal) : JsVal :=
  obj [("mimeType"%string, JStr (js mime)); ("parts"%string, JArr parts)].

(** base64url of [<p>Hello</p><p>World</p>] *)
Definition helloWorldData : jsstring := js "PHA-SGVsbG88L3A-PHA-V29ybGQ8L3A-".

Definition helloWorldHtml : jsstring := js "<p>Hello</p><p>World</p>".

(** A nested tree: a plain part whose data is not base64 at all, and under a
    second container an HTML part and an empty part. *)
Definition nestedPayload : JsVal :=
  container "multipart/mixed"
    [ leaf "text/plain" (js "!! not base64 !!");
      container "multipart/alternative"
        [ leaf "text/html" helloWorldData; obj [] ] ].

(** base64url of [The quick brown fox jumps over the lazy dog] *)
Definition foxData : jsstring :=
  js "VGhlIHF1aWNrIGJyb3duIGZveCBqdW1wcyBvdmVyIHRoZSBsYXp5IGRvZw".

(** A reply whose [From:] line comes before its [On ... wrote:] line. *)
Definition replyText : jsstring :=
  js "hello" ++ [LF] ++ js "From: bob" ++ [LF] ++ js "On Monday Bob wrote:"
  ++ [LF] ++ js "xyz".

(** A footer whose unsubscribe line comes before its confidentiality
    notice. *)
Definition footerText : jsstring :=
  js "Bye" ++ [LF] ++ js "To unsubscribe click here" ++ [LF]
  ++ js "This email and any attachments are confidential".

Definition onWroteMarker : RegExp :=
  mkRegExp (Seqs [Bol; Lit "On "; Star true Dot; Lit " wrote:"; Eol]) false true.

Definition plainArgs (recipients : list jsstring) : EmailArgs :=
  {| to := recipients; cc := None; bcc := None;
     subject := js "Hi"; body := js "hello";
     htmlBody := None; mimeType := None; inReplyTo := None;
     attachments := None |}.

(** A plain body and an HTML body, no [mimeType]. *)
Definition bothBodiesArgs : EmailArgs :=
  {| to := [js "ann@example.com"]; cc := None; bcc := None;
     subject := js "Hi"; body := js "plain text";
     htmlBody := Some (js "<p>html</p>"); mimeType := None; inReplyTo := None;
     attachments := None |}.

(** [cc] and [bcc] entries that the validator rejects, and two attachments. *)
Definition copiedArgs : EmailArgs :=
  {| to := [js "ann@example.com"; js "bob@example.org"];
     cc := Some [js "not an address"; js "@"];
     bcc := Some [js "nobody"];
     subject := js "Hi"; body := js "hello";
     htmlBody := None; mimeType := None; inReplyTo := None;
     attachments := Some [js "/tmp/a.txt"; js "/tmp/dir/b.pdf"] |}.

Definition sampleFiles : list jsstring := [js "/tmp/a.txt"; js "/tmp/dir/b.pdf"].

(** A sample value of [Math.random().toString(36)]. *)
Definition sampleRandom : jsstring := js "0.4fzyo82mvyr".

(** ** Characters of a header *)

(** A code unit of the ASCII range, the complement of [[^\x00-\x7F]]. *)
Definition isAscii (c : char) : bool := (c <=? 127)%N.

(** The character by character translation of the URL-safe base64
    alphabet to the standard one. *)
Definition toStandardChar (c : char) : char :=
  if (c =? ch "-")%N then ch "+" else if (c =? ch "_")%N then ch "/" else c.

(** A blank of [/[ \t]+/]: a space or a tab. *)
Definition isBlank (c : char) : bool := ((c =? 32) || (c =? 9))%N.

(** No tab, and no two spaces in a row. *)
Fixpoint singleSpaced (s : jsstring) : bool :=
  match s with
  | [] => true
  | c :: rest =>
      negb (c =? 9)%N &&
      match rest with
      | d :: _ => negb ((c =? 32) && (d =? 32))%N
      | [] => true
      end && singleSpaced rest
  end.

(** ** Lines of a message *)

(** The header block [createEmailMessage] emits, line by line. *)
Definition headerBlock (args : EmailArgs) (encodedSubject : jsstring)
    : list jsstring :=
  [ js "From: me"; js "To: " ++ join (js ", ") (to args) ]
  ++ match cc args with Some l => [js "Cc: " ++ join (js ", ") l] | None => [] end
  ++ match bcc args with Some l => [js "Bcc: " ++ join (js ", ") l] | None => [] end
  ++ [ js "Subject: " ++ encodedSubject ]
  ++ match inReplyTo args with
     | Some ref =>
         if nonempty ref
         then [js "In-Reply-To: " ++ ref; js "References: " ++ ref]
         else []
     | None => []
     end
  ++ [ js "MIME-Version: 1.0" ].

(** A request of a plain reply: HTML asked for, no HTML body given. *)
Definition htmlOnlyArgs : EmailArgs :=
  {| to := [js "ann@example.com"]; cc := Some []; bcc := None;
     subject := js "Re: Hi"; body := js "hello";
     htmlBody := None; mimeType := Some (js "text/html");
     inReplyTo := Some (js "<id-1@example.com>");
     attachments := None |}.

(** A request that names [multipart/alternative] and gives no HTML body. *)
Definition alternativeArgs : EmailArgs :=
  {| to := [js "ann@example.com"]; cc := None; bcc := None;
     subject := js "Hi"; body := js "hello";
     htmlBody := None; mimeType := Some (js "multipart/alternative");
     inReplyTo := None; attachments := None |}.

(** A request with an invalid recipient and with a file that is missing. *)
Definition brokenArgs : EmailArgs :=
  {| to := [js "ann@example.com"; js "bob"]; cc := None; bcc := None;
     subject := js "Hi"; body := js "hello";
     htmlBody := None; mimeType := None; inReplyTo := None;
     attachments := Some [js "/tmp/a.txt"; js "/tmp/missing.txt"; js "/nowhere"] |}.

Definition missingFileArgs : EmailArgs :=
  {| to := [js "ann@example.com"]; cc := None; bcc := None;
     subject := js "Hi"; body := js "hello";
     htmlBody := None; mimeType := None; inReplyTo := None;
     attachments := Some [js "/tmp/a.txt"; js "/tmp/missing.txt"; js "/nowhere"] |}.

(** base64url of [Hi there], of a blank text and of [second] *)
Definition hiThereData : jsstring := js "SGkgdGhlcmU".
Definition blankData : jsstring := js "ICAgCiA".
Definition secondData : jsstring := js "c2Vjb25k".

(** A part with data of its own and with sub-parts. *)
Definition partWith (mime : string) (data : jsstring) (parts : list JsVal) : JsVal :=
  obj [("mimeType"%string, JStr (js mime));
       ("body"%string, obj [("data"%string, JStr data)]);
       ("parts"%string, JArr parts)].

(** ** Runs of blanks *)

(** The number of blanks a text starts with. *)
Fixpoint leadingBlanks (s : jsstring) : nat :=
  match s with
  | c :: rest => if isBlank c then S (leadingBlanks rest) else O
  | [] => O
  end.

(** Every run of blanks turned into one space; [inRun] tells that the
    run has begun before [s]. *)
Fixpoint collapseBlanks (inRun : bool) (s : jsstring) : jsstring :=
  match s with
  | [] => []
  | c :: rest =>
      if isBlank c then
        if inRun then collapseBlanks true rest
        else 32%N :: collapseBlanks true rest
      else c :: collapseBlanks false rest
  end.

(** A text on one line with marker words in the middle of it. *)
Definition oneLineText : jsstring :=
  js "  Mail From: bob, who On Monday wrote: hello ".

(** ** Depth and data of a payload *)

(** The number of nested calls of [extract] a value asks for: one for the
    value, and under it those of the deepest element of its [parts]. *)
Fixpoint height (v : JsVal) : nat :=
  match v with
  | JObj props =>
      S match props "parts"%string with
        | JArr parts => list_max (map height parts)
        | _ => O
        end
  | _ => 1%nat
  end.

(** [data.replace] exists: the data is a string. *)
Definition isString (v : JsVal) : bool :=
  match v with
  | JStr _ => true
  | _ => false
  end.

(** Every part that [extract] reaches and decodes has a string for data:
    where the type is [text/plain] or [text/html], [body?.data] is falsy or
    a string. Parts of other types, missing or [null] bodies, [null] among
    the sub-parts and properties of any other kind are all allowed. *)
Fixpoint dataOk (v : JsVal) : bool :=
  match v with
  | JObj props =>
      let mime := props "mimeType"%string in
      let data := optProp (props "body"%string) "data" in
      (negb (isStr mime (js "text/plain") || isStr mime (js "text/html"))
       || negb (truthy data) || isString data)
      && match props "parts"%string with
         | JArr parts => forallb dataOk parts
         | _ => true
         end
  | _ => true
  end.

(** A chain of [n] containers around [v]. *)
Fixpoint nest (n : nat) (v : JsVal) : JsVal :=
  match n with
  | O => v
  | S k => obj [("parts"%string, JArr [nest k v])]
  end.

(** A plain part whose data is a number. *)
Definition numberPayload : JsVal :=
  obj [("mimeType"%string, JStr (js "text/plain"));
       ("body"%string, obj [("data"%string, JNum 5)])].

(** A tree with a [null] body, a [null] sub-part, a part of another type
    whose data is a number, and a mistyped [mimeType]. *)
Definition raggedPayload : JsVal :=
  obj [("mimeType"%string, JStr (js "multipart/mixed"));
       ("body"%string, JNull);
       ("parts"%string,
        JArr [ JNull;
               obj [("mimeType"%string, JStr (js "application/pdf"));
                    ("body"%string, obj [("data"%string, JNum 5)])];
               obj [("mimeType"%string, JNum 7); ("parts"%string, JStr (js "none"))];
               leaf "text/plain" (js "!! not base64 !!");
               container "multipart/alternative"
                 [leaf "text/html" helloWorldData; obj []] ])].

(** A request whose second attachment path is a directory. *)
Definition directoryArgs : EmailArgs :=
  {| to := [js "ann@example.com"]; cc := None; bcc := None;
     subject := js "Hi"; body := js "hello";
     htmlBody := None; mimeType := None; inReplyTo := None;
     attachments := Some [js "/tmp/a.txt"; js "/tmp/dir"] |}.

(** * Properties *)

Lemma str_eqb_eq (a b : jsstring) : str_eqb a b = true <-> a = b.
Proof. unfold str_eqb. destruct (list_eq_dec N.eq_dec a b); split; congruence. Qed.

Lemma str_eqb_refl (a : jsstring) : str_eqb a a = true.
Proof. now apply str_eqb_eq. Qed.

(** ** What the matcher accepts

    The matcher finds a match whenever there is one for which the
    continuation succeeds. *)

Section MatcherSpec.

Variables ic ml : bool.

Lemma first_some (a b : option jsstring) :
  match a with Some res => Some res | None => b end <> None <->
  a <> None \/ b <> None.
Proof. destruct a, b; split; intros; try tauto; try (left; discriminate);
  try (right; discriminate); try discriminate. Qed.

Lemma repeatMatcher_succeeds (r : regex) (g : bool) (k : cont) :
  (forall p s k', rmatch ic ml r p s k' <> None <-> Accepted ic ml r p s k') ->
  forall n p s, (length s <= n)%nat ->
  repeatMatcher (rmatch ic ml r) g k n p s <> None <-> Accepted ic ml (Star g r) p s k.
Proof.
  intros Hr. induction n as [|n IH]; intros p s Hlen.
  - destruct s; [|simpl in Hlen; lia]. simpl. split.
    + intros Hk. exists p, []. split; [constructor | exact Hk].
    + intros (p' & s' & HM & Hk). inversion HM; subst; [exact Hk|].
      simpl in *. lia.
  - simpl.
    assert (Hagain :
      rmatch ic ml r p s
        (fun p1 s1 => if (length s1 <? length s)%nat
                      then repeatMatcher (rmatch ic ml r) g k n p1 s1 else None)
        <> None <->
      exists p1 s1 p' s', Matches ic ml r p s p1 s1 /\ (length s1 < length s)%nat /\
        Matches ic ml (Star g r) p1 s1 p' s' /\ k p' s' <> None).
    { rewrite Hr. unfold Accepted. split.
      - intros (p1 & s1 & HM & Hk).
        destruct (length s1 <? length s)%nat eqn:E; [|congruence].
        apply Nat.ltb_lt in E. apply IH in Hk; [|lia].
        destruct Hk as (p' & s' & HS & Hk). exists p1, s1, p', s'. auto.
      - intros (p1 & s1 & p' & s' & HM & Hlt & HS & Hk).
        exists p1, s1. split; [exact HM|].
        apply Nat.ltb_lt in Hlt as E. rewrite E. apply IH; [lia|].
        exists p', s'. auto. }
    assert (Hboth :
      (if g
       then match rmatch ic ml r p s
                    (fun p1 s1 => if (length s1 <? length s)%nat
                       then repeatMatcher (rmatch ic ml r) g k n p1 s1 else None)
            with Some res => Some res | None => k p s end
       else match k p s with
            | Some res => Some res
            | None => rmatch ic ml r p s
                    (fun p1 s1 => if (length s1 <? length s)%nat
                       then repeatMatcher (rmatch ic ml r) g k n p1 s1 else None)
            end) <> None <->
      (rmatch ic ml r p s
        (fun p1 s1 => if (length s1 <? length s)%nat
                      then repeatMatcher (rmatch ic ml r) g k n p1 s1 else None)
        <> None \/ k p s <> None)).
    { destruct g; rewrite first_some; tauto. }
    rewrite Hboth, Hagain. unfold Accepted. split.
    + intros [(p1 & s1 & p' & s' & HM & Hlt & HS & Hk) | Hk].
      * exists p', s'. split; [|exact Hk]. eapply M_StarMore; eauto.
      * exists p, s. split; [constructor | exact Hk].
    + intros (p' & s' & HM & Hk). inversion HM; subst.
      * right. exact Hk.
      * left. eauto 10.
Qed.

Theorem rmatch_succeeds (r : regex) :
  forall p s k, rmatch ic ml r p s k <> None <-> Accepted ic ml r p s k.
Proof.
  unfold Accepted.
  induction r as [ | c | | neg items | r1 IH1 r2 IH2 | r1 IH1 r2 IH2 | g r IH | | ];
    intros p s k; simpl.
  - split.
    + intros H. exists p, s. split; [constructor | exact H].
    + intros (p' & s' & HM & Hk). inversion HM; subst. exact Hk.
  - destruct s as [|x s]; [|destruct (chr_match ic c x) eqn:E].
    + split; [congruence|]. intros (p' & s' & HM & _). inversion HM.
    + split.
      * intros H. exists (Some x), s. split; [now constructor | exact H].
      * intros (p' & s' & HM & Hk). inversion HM; subst. exact Hk.
    + split; [congruence|]. intros (p' & s' & HM & _). inversion HM; congruence.
  - destruct s as [|x s]; [|destruct (isLineTerminator x) eqn:E].
    + split; [congruence|]. intros (p' & s' & HM & _). inversion HM.
    + split; [congruence|]. intros (p' & s' & HM & _). inversion HM; congruence.
    + split.
      * intros H. exists (Some x), s. split; [now constructor | exact H].
      * intros (p' & s' & HM & Hk). inversion HM; subst. exact Hk.
  - destruct s as [|x s]; [|destruct (class_match ic neg items x) eqn:E].
    + split; [congruence|]. intros (p' & s' & HM & _). inversion HM.
    + split.
      * intros H. exists (Some x), s. split; [now constructor | exact H].
      * intros (p' & s' & HM & Hk). inversion HM; subst. exact Hk.
    + split; [congruence|]. intros (p' & s' & HM & _). inversion HM; congruence.
  - rewrite IH1. split.
    + intros (p1 & s1 & HM1 & H2). apply IH2 in H2.
      destruct H2 as (p2 & s2 & HM2 & Hk). exists p2, s2.
      split; [econstructor; eauto | exact Hk].
    + intros (p2 & s2 & HM & Hk). inversion HM; subst.
      exists p1, s1. split; [assumption|]. apply IH2. eauto.
  - rewrite first_some, IH1, IH2. split.
    + intros [(p' & s' & HM & Hk) | (p' & s' & HM & Hk)]; exists p', s';
        (split; [|exact Hk]); [now apply M_AltL | now apply M_AltR].
    + intros (p' & s' & HM & Hk). inversion HM; subst; [left | right]; eauto.
  - apply repeatMatcher_succeeds; [exact IH | lia].
  - destruct (at_bol ml p) eqn:E.
    + split.
      * intros H. exists p, s. split; [now constructor | exact H].
      * intros (p' & s' & HM & Hk). inversion HM; subst. exact Hk.
    + split; [congruence|]. intros (p' & s' & HM & _). inversion HM; congruence.
  - destruct (at_eol ml s) eqn:E.
    + split.
      * intros H. exists p, s. split; [now constructor | exact H].
      * intros (p' & s' & HM & Hk). inversion HM; subst. exact Hk.
    + split; [congruence|]. intros (p' & s' & HM & _). inversion HM; congruence.
Qed.

End MatcherSpec.

(** ** Where [search] finds its match *)

Lemma stateAt_prev (s : jsstring) :
  forall prev i, (0 < i <= length s)%nat -> exists c, fst (stateAt prev s i) = Some c.
Proof.
  induction s as [|c s IH]; intros prev i Hi; simpl in Hi; [lia|].
  destruct i as [|i]; [lia|]. simpl.
  destruct i as [|i]; [destruct s; simpl; eauto|].
  apply IH. lia.
Qed.

Lemma searchFrom_spec (re : RegExp) (s : jsstring) :
  forall prev i0,
    (searchFrom re prev s i0 = -1 /\
     forall j, (j <= length s)%nat -> matchesFrom re prev s j = false)
    \/
    (exists j, (j <= length s)%nat /\
       searchFrom re prev s i0 = i0 + Z.of_nat j /\
       matchesFrom re prev s j = true /\
       forall j', (j' < j)%nat -> matchesFrom re prev s j' = false).
Proof.
  induction s as [|c s IH]; intros prev i0; simpl.
  - destruct (matchAt re prev []) eqn:E.
    + right. exists 0%nat. unfold matchesFrom. simpl. rewrite E.
      repeat split; [lia | lia | intros; lia].
    + left. split; [reflexivity|]. intros j Hj. unfold matchesFrom.
      destruct j; simpl; now rewrite E.
  - destruct (matchAt re prev (c :: s)) eqn:E.
    + right. exists 0%nat. unfold matchesFrom. simpl. rewrite E.
      repeat split; [lia | lia | intros; lia].
    + destruct (IH (Some c) (i0 + 1)) as [[Hs Hn] | (j & Hj & Hs & Hm & Hn)].
      * left. split; [exact Hs|]. intros [|j] Hj.
        -- unfold matchesFrom. simpl. now rewrite E.
        -- apply (Hn j). lia.
      * right. exists (S j). repeat split.
        -- lia.
        -- rewrite Hs. lia.
        -- exact Hm.
        -- intros [|j'] Hlt.
           ++ unfold matchesFrom. simpl. now rewrite E.
           ++ apply (Hn j'). lia.
Qed.

(** [search] returns [-1] exactly when the pattern matches nowhere. *)
Lemma search_none (re : RegExp) (s : jsstring) :
  search re s = -1 <->
  forall j, (j <= length s)%nat -> matchesAt re s j = false.
Proof.
  unfold search, matchesAt.
  destruct (searchFrom_spec re s None 0) as [[Hs Hn] | (j & Hj & Hs & Hm & Hn)].
  - tauto.
  - split; [lia|]. intros H. rewrite (H j Hj) in Hm. discriminate.
Qed.

(** Otherwise it returns the least index at which the pattern matches. *)
Lemma search_least (re : RegExp) (s : jsstring) (i : nat) :
  (i <= length s)%nat -> matchesAt re s i = true ->
  (forall j, (j < i)%nat -> matchesAt re s j = false) ->
  search re s = Z.of_nat i.
Proof.
  unfold search, matchesAt. intros Hi Hm Hleast.
  destruct (searchFrom_spec re s None 0) as [[Hs Hn] | (j & Hj & Hs & Hmj & Hn)].
  - rewrite (Hn i Hi) in Hm. discriminate.
  - destruct (Nat.lt_trichotomy i j) as [Hlt | [-> | Hlt]].
    + rewrite (Hn i Hlt) in Hm. discriminate.
    + rewrite Hs. lia.
    + rewrite (Hleast j Hlt) in Hmj. discriminate.
Qed.

Lemma slice_prefix (s : jsstring) (i : nat) :
  (i <= length s)%nat -> slice s 0 (Z.of_nat i) = firstn i s.
Proof.
  intros Hi. unfold slice, clampIndex.
  replace (0 <? 0) with false by reflexivity.
  destruct (Z.of_nat i <? 0) eqn:E; [apply Z.ltb_lt in E; lia|].
  rewrite Z.min_l by lia. rewrite Z.min_l by lia.
  simpl. f_equal. lia.
Qed.

(** ** Repetitions of a character class *)

Section ClassRuns.

Variables ic ml : bool.
Variables (neg : bool) (items : list citem).

Lemma star_class_run g p s p' s' :
  Matches ic ml (Star g (Class neg items)) p s p' s' ->
  exists w, s = w ++ s' /\ forallb (class_match ic neg items) w = true.
Proof.
  intros H. remember (Star g (Class neg items)) as r eqn:Hr.
  induction H; try discriminate.
  - exists []. auto.
  - injection Hr as -> ->. inversion H; subst.
    destruct (IHMatches2 eq_refl) as (w & -> & Hw).
    exists (x :: w). split; [reflexivity|]. simpl.
    match goal with Hc : class_match _ _ _ _ = true |- _ => now rewrite Hc end.
Qed.

Lemma run_star_class g w : forall p s',
  forallb (class_match ic neg items) w = true ->
  exists p', Matches ic ml (Star g (Class neg items)) p (w ++ s') p' s'.
Proof.
  induction w as [|x w IH]; intros p s' Hw.
  - exists p. constructor.
  - simpl in Hw. apply andb_true_iff in Hw as [Hx Hw].
    destruct (IH (Some x) s' Hw) as (p' & HM). exists p'.
    apply M_StarMore with (p1 := Some x) (s1 := w ++ s');
      [now apply M_Class | simpl; lia | exact HM].
Qed.

Lemma plus_class_run p s p' s' :
  Matches ic ml (Plus (Class neg items)) p s p' s' ->
  exists w, w <> [] /\ s = w ++ s' /\ forallb (class_match ic neg items) w = true.
Proof.
  intros H. inversion H as [ | | | | r1 r2 q t q1 t1 q2 t2 H1 H2 | | | | | | ]; subst.
  inversion H1; subst.
  apply star_class_run in H2. destruct H2 as (w & -> & Hw).
  exists (x :: w). repeat split; [discriminate|]. simpl.
  match goal with Hc : class_match _ _ _ _ = true |- _ => now rewrite Hc end.
Qed.

Lemma run_plus_class w p s' :
  w <> [] -> forallb (class_match ic neg items) w = true ->
  exists p', Matches ic ml (Plus (Class neg items)) p (w ++ s') p' s'.
Proof.
  intros Hne Hw. destruct w as [|x w]; [congruence|].
  simpl in Hw. apply andb_true_iff in Hw as [Hx Hw].
  destruct (run_star_class true w (Some x) s' Hw) as (p' & HM).
  exists p'. eapply M_Seq; [now apply M_Class | exact HM].
Qed.

End ClassRuns.

(** ** Inversion of the matching relation *)

Section Inversion.

Variables ic ml : bool.

Lemma Matches_Seq_inv r1 r2 p s p2 s2 :
  Matches ic ml (Seq r1 r2) p s p2 s2 ->
  exists p1 s1, Matches ic ml r1 p s p1 s1 /\ Matches ic ml r2 p1 s1 p2 s2.
Proof. intros H. inversion H; subst. eauto. Qed.

Lemma Matches_Chr_inv c p s p' s' :
  Matches ic ml (Chr c) p s p' s' ->
  exists x, s = x :: s' /\ p' = Some x /\ chr_match ic c x = true.
Proof. intros H. inversion H; subst. eauto. Qed.

Lemma Matches_Bol_inv p s p' s' :
  Matches ic ml Bol p s p' s' -> p' = p /\ s' = s /\ at_bol ml p = true.
Proof. intros H. inversion H; subst. auto. Qed.

Lemma Matches_Eol_inv p s p' s' :
  Matches ic ml Eol p s p' s' -> p' = p /\ s' = s /\ at_eol ml s = true.
Proof. intros H. inversion H; subst. auto. Qed.

End Inversion.

(** ** validateEmail *)

Lemma notSpaceNorAt_plain (c : char) :
  class_match false true [CSpace; CChar (ch "@")] c = plainChar c.
Proof.
  unfold class_match, set_has, plainChar. simpl.
  destruct (isSpace c), (c =? 64)%N; reflexivity.
Qed.

Lemma forallb_plain (w : jsstring) :
  forallb (class_match false true [CSpace; CChar (ch "@")]) w = forallb plainChar w.
Proof.
  induction w as [|x w IH]; [reflexivity|].
  cbn [forallb]. now rewrite IH, notSpaceNorAt_plain.
Qed.

Lemma chr_match_exact (c x : char) : chr_match false c x = true <-> x = c.
Proof.
  unfold chr_match, canonicalize. simpl. rewrite N.eqb_eq. split; congruence.
Qed.

Lemma emailRegex_source :
  source emailRegex =
  Seq Bol (Seq (Plus notSpaceNorAt) (Seq (Chr (ch "@")) (Seq (Plus notSpaceNorAt)
    (Seq (Chr (ch ".")) (Seq (Plus notSpaceNorAt) Eol))))).
Proof. reflexivity. Qed.

Lemma emailRegex_matches (e : jsstring) :
  (exists p' s', Matches false false (source emailRegex) None e p' s') <->
  addressShape e.
Proof.
  rewrite emailRegex_source. unfold notSpaceNorAt, addressShape. split.
  - intros (p' & s' & H).
    apply Matches_Seq_inv in H as (p0 & s0 & H0 & H).
    apply Matches_Bol_inv in H0 as (-> & -> & _).
    apply Matches_Seq_inv in H as (p1 & s1 & H1 & H).
    apply plus_class_run in H1 as (l & Hl & -> & Hlc).
    apply Matches_Seq_inv in H as (p2 & s2 & H2 & H).
    apply Matches_Chr_inv in H2 as (x2 & -> & -> & Hx2).
    apply chr_match_exact in Hx2 as ->.
    apply Matches_Seq_inv in H as (p3 & s3 & H3 & H).
    apply plus_class_run in H3 as (d1 & Hd1 & -> & Hd1c).
    apply Matches_Seq_inv in H as (p4 & s4 & H4 & H).
    apply Matches_Chr_inv in H4 as (x4 & -> & -> & Hx4).
    apply chr_match_exact in Hx4 as ->.
    apply Matches_Seq_inv in H as (p5 & s5 & H5 & H).
    apply plus_class_run in H5 as (d2 & Hd2 & -> & Hd2c).
    apply Matches_Eol_inv in H as (-> & -> & Hend).
    destruct s5 as [|y s5]; [|discriminate].
    rewrite forallb_plain in Hlc, Hd1c, Hd2c.
    exists l, d1, d2. rewrite app_nil_r. auto 10.
  - intros (l & d1 & d2 & -> & Hl & Hd1 & Hd2 & Hlc & Hd1c & Hd2c).
    rewrite <- forallb_plain in Hlc, Hd1c, Hd2c.
    destruct (@run_plus_class false false true
                [CSpace; CChar (ch "@")] l None
                (ch "@" :: d1 ++ ch "." :: d2) Hl Hlc) as (p1 & H1).
    destruct (@run_plus_class false false true
                [CSpace; CChar (ch "@")] d1 (Some (ch "@"))
                (ch "." :: d2) Hd1 Hd1c) as (p3 & H3).
    destruct (@run_plus_class false false true
                [CSpace; CChar (ch "@")] d2 (Some (ch "."))
                [] Hd2 Hd2c) as (p5 & H5).
    rewrite app_nil_r in H5.
    exists p5, [].
    eapply M_Seq; [now apply M_Bol|].
    eapply M_Seq; [exact H1|].
    eapply M_Seq; [apply M_Chr; now apply chr_match_exact|].
    eapply M_Seq; [exact H3|].
    eapply M_Seq; [apply M_Chr; now apply chr_match_exact|].
    eapply M_Seq; [exact H5|].
    now apply M_Eol.
Qed.

Lemma emailRegex_only_at_start (c : char) (s : jsstring) :
  matchAt emailRegex (Some c) s = None.
Proof. reflexivity. Qed.

Lemma validateEmail_start (e : jsstring) :
  validateEmail e = true <-> matchAt emailRegex None e <> None.
Proof.
  unfold validateEmail, test, search.
  destruct (searchFrom_spec emailRegex e None 0) as [[Hs Hn] | (j & Hj & Hs & Hm & Hn)].
  - rewrite Hs. simpl. split; [discriminate|]. intros H.
    specialize (Hn 0%nat (Nat.le_0_l _)). unfold matchesFrom in Hn. simpl in Hn.
    destruct (matchAt emailRegex None e); congruence.
  - rewrite Hs. replace (0 + Z.of_nat j =? -1) with false
      by (symmetry; apply Z.eqb_neq; lia).
    split; [intros _ | reflexivity].
    destruct j as [|j].
    + unfold matchesFrom in Hm. simpl in Hm.
      destruct (matchAt emailRegex None e); congruence.
    + destruct (stateAt_prev e None (i := S j)) as (c & Hc); [lia|].
      unfold matchesFrom in Hm. rewrite Hc, emailRegex_only_at_start in Hm.
      discriminate.
Qed.

(** C9 (as amended): [validateEmail e] is true exactly when [e] is a
    non-empty local part, [@], and a domain in which some [.] has at least
    one character before it and at least one after it, with no white space
    and no further [@] anywhere. *)
Theorem validateEmail_addressShape (e : jsstring) :
  validateEmail e = true <-> addressShape e.
Proof.
  rewrite validateEmail_start, <- emailRegex_matches.
  unfold matchAt. rewrite rmatch_succeeds. unfold Accepted, accept. simpl.
  split.
  - intros (p' & s' & H & _). eauto.
  - intros (p' & s' & H). exists p', s'. split; [exact H | discriminate].
Qed.

(** C9 (as stated) fails: [a@.b] has the shape the specification words, a
    dot in the domain included, and the validator rejects it, for nothing
    stands between [@] and the dot. *)
Lemma validateEmail_spec_shape_counterexample :
  ~ (forall e, validateEmail e = true <-> specAddressShape e).
Proof.
  intros H. destruct (H (js "a@.b")) as [_ Hback].
  assert (Hv : validateEmail (js "a@.b") = true).
  { apply Hback. exists (js "a"), (js ".b"). repeat split.
    - discriminate.
    - intros c Hc. vm_compute in Hc.
      repeat (destruct Hc as [<- | Hc]; [reflexivity|]). destruct Hc.
    - vm_compute. intros [Hc | []]. discriminate.
    - vm_compute. intros [Hc | [Hc | []]]; discriminate.
    - vm_compute. auto. }
  vm_compute in Hv. discriminate.
Qed.

(** ** The bounding stage *)

Lemma truncationMarker_length : length truncationMarker = 23%nat.
Proof. reflexivity. Qed.

Lemma truncate_short (M : Z) (s : jsstring) :
  Z.of_nat (length s) <= M -> truncate M s = s.
Proof.
  intros H. unfold truncate. apply Z.leb_le in H. now rewrite H.
Qed.

Lemma truncate_long (M : Z) (s : jsstring) :
  0 <= M < Z.of_nat (length s) ->
  truncate M s = firstn (Z.to_nat M) s ++ truncationMarker.
Proof.
  intros H. unfold truncate.
  destruct (Z.of_nat (length s) <=? M) eqn:E; [apply Z.leb_le in E; lia|].
  f_equal. rewrite <- (Z2Nat.id M) at 1 by lia.
  apply slice_prefix. lia.
Qed.

Lemma truncate_length (M : Z) (s : jsstring) :
  0 <= M -> Z.of_nat (length (truncate M s)) <= M + 23.
Proof.
  intros HM. destruct (Z_le_gt_dec (Z.of_nat (length s)) M) as [Hle | Hgt].
  - rewrite truncate_short by exact Hle. lia.
  - rewrite truncate_long by lia.
    rewrite length_app, length_firstn, truncationMarker_length. lia.
Qed.

(** C6: with a character budget [M], a text longer than [M] comes out as
    its first [M] characters followed by the truncation marker, and a text
    of at most [M] characters comes out unchanged. *)
Theorem truncate_exact (M : Z) (s : jsstring) :
  0 <= M ->
  (M < Z.of_nat (length s) ->
     truncate M s = firstn (Z.to_nat M) s ++ truncationMarker /\
     length (firstn (Z.to_nat M) s) = Z.to_nat M) /\
  (Z.of_nat (length s) <= M -> truncate M s = s).
Proof.
  intros HM. split.
  - intros Hlong. split; [apply truncate_long; lia|].
    rewrite length_firstn. lia.
  - apply truncate_short.
Qed.

(** A text of 7000 characters and the default budget of 6000. *)
Lemma truncate_exact_witness :
  let s := repeat (ch "a") (Z.to_nat 7000) in
  truncate 6000 s = firstn (Z.to_nat 6000) s ++ truncationMarker /\
  length (firstn (Z.to_nat 6000) s) = Z.to_nat 6000.
Proof.
  intros s.
  destruct (@truncate_exact 6000 s ltac:(lia)) as [Hlong _].
  apply Hlong. unfold s. rewrite repeat_length. lia.
Defined.

(** ** The sanitizer returns on every part tree *)

(** Induction on JavaScript values, through arrays and objects. *)
Lemma JsVal_induction (P : JsVal -> Prop) :
  P JUndefined -> P JNull -> (forall b, P (JBool b)) -> (forall n, P (JNum n)) ->
  (forall s, P (JStr s)) ->
  (forall elems, Forall P elems -> P (JArr elems)) ->
  (forall props, (forall name, P (props name)) -> P (JObj props)) ->
  forall v, P v.
Proof.
  intros HU HN HB HZ HS HA HO. fix IH 1. intros [ | | b | n | s | elems | props].
  - exact HU.
  - exact HN.
  - apply HB.
  - apply HZ.
  - apply HS.
  - apply HA. induction elems as [|e elems IHe]; constructor; [apply IH | exact IHe].
  - apply HO. intros name. apply IH.
Qed.

Section Sanitizer.

Variable base64ToUtf8 : jsstring -> jsstring.

Lemma decodeBody_string (v : JsVal) :
  optString v = true -> Returns (decodeBody base64ToUtf8 v).
Proof.
  destruct v; try discriminate; intros _; unfold decodeBody, Returns.
  - simpl. eauto.
  - destruct (negb (truthy (JStr s))); eauto.
Qed.

Lemma wfBody_data (v : JsVal) :
  wfBody v = true -> optString (optProp v "data") = true.
Proof. destruct v; try discriminate; auto. Qed.

Lemma extractEach_returns (parts : list JsVal) :
  Forall (fun p => Returns (extract base64ToUtf8 p)) parts ->
  forall text html, Returns (extractEach (extract base64ToUtf8) parts text html).
Proof.
  induction 1 as [|p parts [[t h] Hp] _ IH]; intros text html; simpl.
  - unfold Returns. eauto.
  - rewrite Hp. simpl. apply IH.
Qed.

Lemma extract_returns (part : JsVal) :
  (wfPart part = true -> Returns (extract base64ToUtf8 part)) /\
  (forall parts, part = JArr parts -> forallb wfPart parts = true ->
     Forall (fun p => Returns (extract base64ToUtf8 p)) parts).
Proof.
  induction part as [ | | b | n | s | elems IH | props IH] using JsVal_induction;
    try (split; [discriminate | discriminate]).
  - split; [discriminate|]. intros parts [= <-] Hall.
    rewrite forallb_forall in Hall. rewrite Forall_forall in IH |- *.
    intros p Hp. apply (IH p Hp). now apply Hall.
  - split; [|discriminate]. intros Hwf. simpl in Hwf.
    apply andb_true_iff in Hwf as [Hwf Hparts].
    apply andb_true_iff in Hwf as [_ Hbody].
    apply wfBody_data in Hbody. simpl.
    set (data := optProp (props "body"%string) "data") in *.
    assert (Hhead : exists t h,
      (if isStr (props "mimeType"%string) (js "text/plain") && truthy data
       then t <- decodeBody base64ToUtf8 data ;; Ok (t, [])
       else if isStr (props "mimeType"%string) (js "text/html") && truthy data
       then h <- decodeBody base64ToUtf8 data ;; Ok ([], h)
       else Ok ([], [])) = Ok (t, h)).
    { destruct (decodeBody_string data Hbody) as (d & Hd). rewrite Hd. simpl.
      destruct (isStr (props "mimeType"%string) (js "text/plain") && truthy data);
        [eauto|].
      destruct (isStr (props "mimeType"%string) (js "text/html") && truthy data);
        eauto. }
    destruct Hhead as (t & h & ->). simpl.
    destruct (props "parts"%string) as [ | | | | | parts | ] eqn:E;
      try discriminate; try (unfold Returns; eauto; fail).
    apply extractEach_returns. apply (proj2 (IH "parts"%string) parts E Hparts).
Qed.

Lemma extract_bare (part : JsVal) :
  barePart part = true ->
  extract base64ToUtf8 (if truthy part then part else obj []) = Ok ([], []).
Proof.
  destruct part as [ | | | | | | props]; try discriminate; try reflexivity.
  intros H. simpl in H. apply andb_true_iff in H as [Hdata Hparts].
  apply negb_true_iff in Hdata. simpl. rewrite Hdata.
  rewrite !andb_false_r. simpl.
  destruct (props "parts"%string); try discriminate; reflexivity.
Qed.

Lemma empty_body_pipeline (M : Z) :
  0 <= M -> truncate M (stripFooters (stripQuoted [])) = [].
Proof. intros HM. apply truncate_short. simpl. exact HM. Qed.

(** C7 (as amended): with a budget [maxChars >= 0] the returned string has
    at most [maxChars + 23] characters, 23 being the length of the
    truncation marker. *)
Theorem makeEmailBodyLLMSafe_bounded (payload : JsVal) (opts : option (option Z)) :
  wfPayload payload = true -> 0 <= maxCharsOf opts ->
  exists s, makeEmailBodyLLMSafe base64ToUtf8 payload opts = Ok s /\
            Z.of_nat (length s) <= maxCharsOf opts + 23.
Proof.
  intros Hwf HM. unfold makeEmailBodyLLMSafe.
  assert (Hex : Returns (extract base64ToUtf8 (if truthy payload then payload else obj []))).
  { destruct payload; try discriminate;
      try (apply (proj1 (extract_returns _)); reflexivity).
    simpl truthy. cbv iota. apply (proj1 (extract_returns _)). exact Hwf. }
  destruct Hex as ([text html] & ->). simpl bind. cbv iota beta.
  eexists. split; [reflexivity|]. now apply truncate_length.
Qed.

End Sanitizer.

(** Data that is not a string has no [replace]: the call throws. *)
Example makeEmailBodyLLMSafe_number_data :
  makeEmailBodyLLMSafe Node.base64ToUtf8
    (obj [("mimeType"%string, JStr (js "text/plain"));
          ("body"%string, obj [("data"%string, JNum 5)])]) None
  = Throw (TypeError (js "data.replace is not a function")).
Proof. reflexivity. Qed.

(** C7 (as stated) fails: a plain part of 43 characters and a budget of 9
    give 32 characters, the budget and the marker. *)
Lemma makeEmailBodyLLMSafe_exceeds_maxChars :
  makeEmailBodyLLMSafe Node.base64ToUtf8 (leaf "text/plain" foxData) (Some (Some 9))
    = Ok (js "The quick" ++ [LF; LF] ++ js "[truncated for model]") /\
  maxCharsOf (Some (Some 9))
    < Z.of_nat (length (js "The quick" ++ [LF; LF] ++ js "[truncated for model]")).
Proof. split; vm_compute; reflexivity. Qed.

Lemma makeEmailBodyLLMSafe_bounded_witness :
  exists s,
    makeEmailBodyLLMSafe Node.base64ToUtf8 (leaf "text/plain" foxData) (Some (Some 9))
      = Ok s /\
    Z.of_nat (length s) <= maxCharsOf (Some (Some 9)) + 23.
Proof.
  apply (makeEmailBodyLLMSafe_bounded Node.base64ToUtf8
           (leaf "text/plain" foxData) (Some (Some 9))).
  - vm_compute. reflexivity.
  - simpl. lia.
Defined.

(** ** HTML to text *)

Section HtmlOnly.

Variable base64ToUtf8 : jsstring -> jsstring.

Lemma htmlLeaf_pipeline (data : jsstring) (opts : option (option Z)) :
  nonempty data = true ->
  makeEmailBodyLLMSafe base64ToUtf8 (leaf "text/html" data) opts =
  let html := base64ToUtf8 (standardAlphabet data) in
  Ok (truncate (maxCharsOf opts)
        (stripFooters (stripQuoted (if nonempty html then htmlToText html else [])))).
Proof.
  intros Hdata. unfold makeEmailBodyLLMSafe, leaf.
  cbn [truthy obj extract lookupProp String.eqb Ascii.eqb Bool.eqb optProp prop].
  cbv beta iota. cbn [isStr truthy]. rewrite Hdata.
  replace (str_eqb (js "text/html") (js "text/plain")) with false by reflexivity.
  replace (str_eqb (js "text/html") (js "text/html")) with true by reflexivity.
  cbn [andb]. unfold decodeBody. cbn [truthy]. rewrite Hdata.
  cbn [negb bind nonempty andb]. reflexivity.
Qed.

Lemma htmlContainer_pipeline (data : jsstring) (opts : option (option Z)) :
  nonempty data = true ->
  makeEmailBodyLLMSafe base64ToUtf8
    (container "multipart/alternative" [leaf "text/html" data]) opts =
  makeEmailBodyLLMSafe base64ToUtf8 (leaf "text/html" data) opts.
Proof.
  intros Hdata. unfold makeEmailBodyLLMSafe, container, leaf.
  cbn [truthy obj extract lookupProp String.eqb Ascii.eqb Bool.eqb optProp prop
       extractEach].
  cbv beta iota. cbn [isStr truthy]. rewrite Hdata.
  replace (str_eqb (js "multipart/alternative") (js "text/plain")) with false
    by reflexivity.
  replace (str_eqb (js "multipart/alternative") (js "text/html")) with false
    by reflexivity.
  replace (str_eqb (js "text/html") (js "text/plain")) with false by reflexivity.
  replace (str_eqb (js "text/html") (js "text/html")) with true by reflexivity.
  cbn [andb]. unfold decodeBody. cbn [truthy]. rewrite Hdata.
  cbn [negb bind app]. reflexivity.
Qed.

(** C8 (as amended): for a payload whose only part is an HTML part that
    decodes to [<p>Hello</p><p>World</p>], alone or as the one child of a
    container, the sanitizer returns [Hello], one line feed, a space and
    [World]: a closing [</p>] becomes one line feed and an opening [<p>] a
    space, so no blank line arises. *)
Theorem makeEmailBodyLLMSafe_hello_world (data : jsstring) :
  nonempty data = true ->
  base64ToUtf8 (standardAlphabet data) = helloWorldHtml ->
  makeEmailBodyLLMSafe base64ToUtf8 (leaf "text/html" data) None
    = Ok (js "Hello" ++ [LF] ++ js " World") /\
  makeEmailBodyLLMSafe base64ToUtf8
    (container "multipart/alternative" [leaf "text/html" data]) None
    = Ok (js "Hello" ++ [LF] ++ js " World").
Proof.
  intros Hdata Hhtml.
  rewrite htmlContainer_pipeline by exact Hdata.
  rewrite htmlLeaf_pipeline by exact Hdata.
  cbv zeta. rewrite Hhtml. split; vm_compute; reflexivity.
Qed.

End HtmlOnly.

Lemma makeEmailBodyLLMSafe_hello_world_witness :
  makeEmailBodyLLMSafe Node.base64ToUtf8 (leaf "text/html" helloWorldData) None
    = Ok (js "Hello" ++ [LF] ++ js " World") /\
  makeEmailBodyLLMSafe Node.base64ToUtf8
    (container "multipart/alternative" [leaf "text/html" helloWorldData]) None
    = Ok (js "Hello" ++ [LF] ++ js " World").
Proof.
  apply (makeEmailBodyLLMSafe_hello_world Node.base64ToUtf8 helloWorldData).
  - reflexivity.
  - vm_compute. reflexivity.
Defined.

(** C8 (as stated) fails: the output for the HTML part
    [<p>Hello</p><p>World</p>] is not [Hello], a blank line, [World]. *)
Lemma makeEmailBodyLLMSafe_hello_world_counterexample :
  Node.base64ToUtf8 (standardAlphabet helloWorldData) = helloWorldHtml /\
  makeEmailBodyLLMSafe Node.base64ToUtf8 (leaf "text/html" helloWorldData) None
    <> Ok (js "Hello" ++ [LF; LF] ++ js "World").
Proof.
  split; [vm_compute; reflexivity|]. vm_compute. discriminate.
Qed.

(** ** Quoted replies and footers *)

Lemma firstMarker_found (s : jsstring) (re : RegExp) (post : list RegExp) (i : nat) :
  (i <= length s)%nat -> matchesAt re s i = true ->
  (forall j, (j < i)%nat -> matchesAt re s j = false) ->
  forall pre,
    (forall r j, In r pre -> (j <= length s)%nat -> matchesAt r s j = false) ->
    firstMarker (pre ++ re :: post) s = Some (trim (firstn i s)).
Proof.
  intros Hi Hm Hleast. induction pre as [|a pre IH]; intros Hpre; simpl.
  - rewrite (search_least re s Hi Hm Hleast).
    replace (Z.of_nat i =? -1) with false by (symmetry; apply Z.eqb_neq; lia).
    simpl. now rewrite slice_prefix.
  - assert (Ha : search a s = -1).
    { apply search_none. intros j Hj. apply Hpre; [now left | exact Hj]. }
    rewrite Ha. simpl. apply IH. intros r j Hr Hj. apply Hpre; [now right | exact Hj].
Qed.

Lemma firstMarker_none (s : jsstring) (markers : list RegExp) :
  (forall r j, In r markers -> (j <= length s)%nat -> matchesAt r s j = false) ->
  firstMarker markers s = None.
Proof.
  induction markers as [|a markers IH]; intros Hall; simpl; [reflexivity|].
  assert (Ha : search a s = -1).
  { apply search_none. intros j Hj. apply Hall; [now left | exact Hj]. }
  rewrite Ha. simpl. apply IH. intros r j Hr Hj. apply Hall; [now right | exact Hj].
Qed.

(** C2 (as amended): the markers are tried in the order of the list. With
    [re] the first listed marker that matches anywhere in the text and [i]
    the leftmost position at which [re] matches, both stages return the
    text before [i], trimmed. When no marker matches, [stripQuoted] returns
    the trimmed text and [stripFooters] its input as it is. *)
Theorem strip_first_listed_marker :
  (forall s pre re post i,
     (forall r j, In r pre -> (j <= length s)%nat -> matchesAt r s j = false) ->
     (i <= length s)%nat -> matchesAt re s i = true ->
     (forall j, (j < i)%nat -> matchesAt re s j = false) ->
     (quotedMarkers = pre ++ re :: post -> stripQuoted s = trim (firstn i s)) /\
     (footerMarkers = pre ++ re :: post -> stripFooters s = trim (firstn i s))) /\
  (forall s,
     ((forall r j, In r quotedMarkers -> (j <= length s)%nat -> matchesAt r s j = false) ->
      stripQuoted s = trim s) /\
     ((forall r j, In r footerMarkers -> (j <= length s)%nat -> matchesAt r s j = false) ->
      stripFooters s = s)).
Proof.
  split.
  - intros s pre re post i Hpre Hi Hm Hleast. split; intros Heq.
    + unfold stripQuoted. rewrite Heq.
      now rewrite (firstMarker_found s re post Hi Hm Hleast pre Hpre).
    + unfold stripFooters. rewrite Heq.
      now rewrite (firstMarker_found s re post Hi Hm Hleast pre Hpre).
  - intros s. split; intros Hnone.
    + unfold stripQuoted. now rewrite firstMarker_none.
    + unfold stripFooters. now rewrite firstMarker_none.
Qed.

Lemma strip_first_listed_marker_witness :
  stripQuoted replyText = trim (firstn 16 replyText) /\
  stripQuoted (js "  hi  ") = trim (js "  hi  ") /\
  stripFooters (js "  hi  ") = js "  hi  ".
Proof.
  destruct strip_first_listed_marker as [Hfound Hnone].
  split; [|split].
  - apply (Hfound replyText [] onWroteMarker (tl quotedMarkers) 16%nat).
    + intros r j [].
    + vm_compute. lia.
    + vm_compute. reflexivity.
    + intros j Hj. do 16 (destruct j as [|j]; [vm_compute; reflexivity|]). lia.
    + reflexivity.
  - apply (Hnone (js "  hi  ")). intros r j Hr. revert j.
    apply search_none.
    repeat (destruct Hr as [<- | Hr]; [vm_compute; reflexivity|]). destruct Hr.
  - apply (Hnone (js "  hi  ")). intros r j Hr. revert j.
    apply search_none.
    repeat (destruct Hr as [<- | Hr]; [vm_compute; reflexivity|]). destruct Hr.
Defined.

Example stripQuoted_replyText :
  stripQuoted replyText = js "hello" ++ [LF] ++ js "From: bob" /\
  stripAtEarliest quotedMarkers replyText = js "hello".
Proof. split; vm_compute; reflexivity. Qed.

Example stripFooters_footerText :
  stripFooters footerText = js "Bye" ++ [LF] ++ js "To unsubscribe click here" /\
  stripAtEarliest footerMarkers footerText = js "Bye".
Proof. split; vm_compute; reflexivity. Qed.

(** C2 (as stated) fails in both stages: the truncation point is the match
    of the first listed marker that matches anywhere, which need not be
    the earliest match in the text. *)
Lemma strip_earliest_counterexample :
  stripQuoted replyText <> stripAtEarliest quotedMarkers replyText /\
  stripFooters footerText <> stripAtEarliest footerMarkers footerText.
Proof. split; vm_compute; discriminate. Qed.

(** ** The composers *)

Lemma validateRecipients_valid (emails : list jsstring) :
  forallb validateEmail emails = true -> validateRecipients emails = Ok tt.
Proof.
  induction emails as [|e emails IH]; simpl; [reflexivity|].
  intros H. apply andb_true_iff in H as [He Hrest]. rewrite He. simpl. now apply IH.
Qed.

Lemma validateRecipients_first_invalid (good : list jsstring) (bad : jsstring)
    (rest : list jsstring) :
  forallb validateEmail good = true -> validateEmail bad = false ->
  validateRecipients (good ++ bad :: rest) = Throw (invalidRecipient bad).
Proof.
  induction good as [|e good IH]; simpl; intros Hgood Hbad.
  - now rewrite Hbad.
  - apply andb_true_iff in Hgood as [He Hgood]. rewrite He. simpl. now apply IH.
Qed.

Lemma first_invalid_split (emails : list jsstring) :
  existsb (fun e => negb (validateEmail e)) emails = true ->
  exists good bad rest,
    emails = good ++ bad :: rest /\ forallb validateEmail good = true /\
    validateEmail bad = false.
Proof.
  induction emails as [|e emails IH]; simpl; [discriminate|].
  destruct (validateEmail e) eqn:He; simpl.
  - intros H. destruct (IH H) as (good & bad & rest & -> & Hgood & Hbad).
    exists (e :: good), bad, rest. simpl. rewrite He. auto.
  - intros _. exists [], e, emails. auto.
Qed.

Lemma validateRecipients_throws (emails : list jsstring) (e : JsError) :
  validateRecipients emails = Throw e ->
  exists addr, In addr emails /\ validateEmail addr = false /\ e = invalidRecipient addr.
Proof.
  induction emails as [|a emails IH]; simpl; [discriminate|].
  destruct (validateEmail a) eqn:Ha; simpl.
  - intros H. destruct (IH H) as (addr & Hin & Hbad & He). eauto.
  - intros [= <-]. exists a. auto.
Qed.

Section Composers.

Variable utf8ToBase64 : jsstring -> jsstring.
Variable existsSync : jsstring -> bool.
Variable basename : jsstring -> jsstring.
Variable sendMail : MailOptions -> jsstring.

(** C4: when some address of the [to] list fails the validator,
    [createEmailMessage] throws at the first such address, the error names
    that address, and no message is returned. *)
Theorem createEmailMessage_invalid_recipient (random36 : jsstring) (args : EmailArgs) :
  existsb (fun e => negb (validateEmail e)) (to args) = true ->
  exists good bad rest,
    to args = good ++ bad :: rest /\
    forallb validateEmail good = true /\ validateEmail bad = false /\
    createEmailMessage utf8ToBase64 random36 args
      = Throw (Error (js "Recipient email address is invalid: " ++ bad)).
Proof.
  intros H. destruct (first_invalid_split _ H) as (good & bad & rest & Hto & Hgood & Hbad).
  exists good, bad, rest. repeat split; try assumption.
  unfold createEmailMessage, emailParts. rewrite Hto.
  now rewrite (validateRecipients_first_invalid good bad rest Hgood Hbad).
Qed.

Lemma prepareAttachments_exist (paths : list jsstring) :
  forallb existsSync paths = true ->
  forall acc,
    prepareAttachments existsSync basename paths acc
      = Ok (acc ++ map (fun p => mkAttachment (basename p) p) paths).
Proof.
  induction paths as [|p paths IH]; simpl; intros H acc.
  - now rewrite app_nil_r.
  - apply andb_true_iff in H as [Hp Hrest]. rewrite Hp. simpl.
    rewrite (IH Hrest). now rewrite <- app_assoc.
Qed.

Lemma prepareAttachments_throws (paths : list jsstring) :
  forall acc e,
    prepareAttachments existsSync basename paths acc = Throw e ->
    exists p, In p paths /\ existsSync p = false /\ e = missingFile p.
Proof.
  induction paths as [|p paths IH]; simpl; intros acc e; [discriminate|].
  destruct (existsSync p) eqn:Hp; simpl.
  - intros H. destruct (IH _ _ H) as (q & Hin & Hq & He). eauto.
  - intros [= <-]. exists p. auto.
Qed.

(** C10: with every [to] address valid, whatever the [cc] and [bcc] lists
    hold, the validation step of both composers passes,
    [createEmailMessage] returns a message whose lines include the [Cc] and
    [Bcc] headers with the entries joined as they are, and
    [createEmailWithNodemailer] throws no invalid-recipient error and hands
    the same joined strings to the renderer. *)
Theorem cc_bcc_not_validated (random36 : jsstring) (args : EmailArgs) :
  forallb validateEmail (to args) = true ->
  validateRecipients (to args) = Ok tt /\
  (exists lines,
     emailParts utf8ToBase64 random36 args = Ok lines /\
     createEmailMessage utf8ToBase64 random36 args = Ok (join CRLF lines) /\
     (forall l, cc args = Some l -> In (js "Cc: " ++ join (js ", ") l) lines) /\
     (forall l, bcc args = Some l -> In (js "Bcc: " ++ join (js ", ") l) lines)) /\
  (forall addr,
     createEmailWithNodemailer existsSync basename sendMail args
       <> Throw (Error (js "Recipient email address is invalid: " ++ addr))) /\
  (forall paths,
     attachments args = Some paths -> forallb existsSync paths = true ->
     exists m,
       createEmailWithNodemailer existsSync basename sendMail args = Ok (sendMail m) /\
       mo_cc m = option_map (join (js ", ")) (cc args) /\
       mo_bcc m = option_map (join (js ", ")) (bcc args)).
Proof.
  intros Hto. pose proof (validateRecipients_valid _ Hto) as Hv.
  split; [exact Hv|]. split; [|split].
  - unfold createEmailMessage, emailParts. rewrite Hv. cbn [bind].
    eexists. split; [reflexivity|]. split; [reflexivity|].
    split; intros l Hl; apply in_or_app; left; apply filter_In;
      (split; [|reflexivity]); unfold headerLines; rewrite Hl; cbn [In]; tauto.
  - intros addr. unfold createEmailWithNodemailer. rewrite Hv. cbn [bind].
    destruct (attachments args) as [paths|]; simpl; [|discriminate].
    destruct (prepareAttachments existsSync basename paths []) as [atts|e1] eqn:Hp;
      simpl; [discriminate|].
    destruct (prepareAttachments_throws _ _ Hp) as (p & _ & _ & ->).
    unfold missingFile. simpl. discriminate.
  - intros paths Hatt Hfiles. unfold createEmailWithNodemailer.
    rewrite Hv, Hatt. cbn [bind]. rewrite (prepareAttachments_exist _ Hfiles).
    cbn [bind]. eexists. split; [reflexivity|]. split; reflexivity.
Qed.

End Composers.

Lemma createEmailMessage_invalid_recipient_witness :
  createEmailMessage Node.utf8ToBase64 sampleRandom (plainArgs [js "bad-address"])
    = Throw (Error (js "Recipient email address is invalid: bad-address")).
Proof.
  destruct (createEmailMessage_invalid_recipient Node.utf8ToBase64 sampleRandom
              (plainArgs [js "bad-address"]))
    as (good & bad & rest & Hto & _ & _ & Hthrow).
  - vm_compute. reflexivity.
  - destruct good as [|g good].
    + injection Hto as <- _. exact Hthrow.
    + destruct good; discriminate Hto.
Defined.

(** C3 fails on the code: with both bodies present and no [mimeType] the
    message is a single [text/plain] part and the HTML body is left out,
    where the claim (and the comment above the test in the source, "mimeType
    isn't explicitly set to text/plain") asks for [multipart/alternative]. *)
Theorem createEmailMessage_absent_mimeType (utf8ToBase64 : jsstring -> jsstring)
    (random36 : jsstring) :
  createEmailMessage utf8ToBase64 random36 bothBodiesArgs =
  Ok (join CRLF
        [ js "From: me";
          js "To: ann@example.com";
          js "Subject: Hi";
          js "MIME-Version: 1.0";
          js "Content-Type: text/plain; charset=UTF-8";
          js "Content-Transfer-Encoding: 7bit";
          [];
          js "plain text" ]).
Proof. vm_compute. reflexivity. Qed.

(** With a [mimeType] that is given and is not [text/plain], the claim of
    C3 holds: two parts between boundaries, plain first and HTML second. *)
Lemma createEmailMessage_multipart (utf8ToBase64 : jsstring -> jsstring)
    (random36 : jsstring) (args : EmailArgs) (mime html : jsstring) :
  forallb validateEmail (to args) = true ->
  mimeType args = Some mime -> nonempty mime = true ->
  str_eqb mime (js "text/plain") = false ->
  htmlBody args = Some html -> nonempty html = true ->
  let boundary := js "----=_NextPart_" ++ substringFrom 2 random36 in
  emailParts utf8ToBase64 random36 args =
  Ok (filter nonempty (headerLines args (encodeEmailHeader utf8ToBase64 (subject args)))
      ++ [ js "Content-Type: multipart/alternative; boundary=" ++ [quote] ++ boundary
             ++ [quote];
           [];
           js "--" ++ boundary;
           js "Content-Type: text/plain; charset=UTF-8";
           js "Content-Transfer-Encoding: 7bit";
           [];
           body args;
           [];
           js "--" ++ boundary;
           js "Content-Type: text/html; charset=UTF-8";
           js "Content-Transfer-Encoding: 7bit";
           [];
           html;
           [];
           js "--" ++ boundary ++ js "--" ]).
Proof.
  intros Hto Hmime Hne Hplain Hhtml Hnh boundary.
  unfold emailParts. rewrite (validateRecipients_valid _ Hto). cbn [bind].
  unfold chosenMimeType, bodyLines, present, orElse.
  rewrite Hmime, Hhtml, Hne, Hnh, Hplain. cbn [negb andb].
  replace (str_eqb (js "multipart/alternative") (js "multipart/alternative"))
    with true by reflexivity.
  reflexivity.
Qed.

(** A request with valid recipients and no [attachments] field: the loop
    over the attachments throws a [TypeError]. *)
Lemma createEmailWithNodemailer_absent_attachments :
  forallb validateEmail (to (plainArgs [js "ann@example.com"])) = true /\
  attachments (plainArgs [js "ann@example.com"]) = None /\
  createEmailWithNodemailer (Node.existsIn sampleFiles) Node.basename Node.render
    (plainArgs [js "ann@example.com"])
    = Throw (TypeError (js "validatedArgs.attachments is not iterable")).
Proof. repeat split; vm_compute; reflexivity. Qed.

Lemma cc_bcc_not_validated_witness :
  existsb validateEmail [js "not an address"; js "@"; js "nobody"] = false /\
  validateRecipients (to copiedArgs) = Ok tt /\
  exists lines,
    createEmailMessage Node.utf8ToBase64 sampleRandom copiedArgs
      = Ok (join CRLF lines) /\
    In (js "Cc: not an address, @") lines /\ In (js "Bcc: nobody") lines.
Proof.
  split; [vm_compute; reflexivity|].
  destruct (cc_bcc_not_validated Node.utf8ToBase64 (Node.existsIn sampleFiles)
              Node.basename Node.render sampleRandom copiedArgs)
    as (Hv & (lines & _ & Hmsg & Hcc & Hbcc) & _ & _).
  - vm_compute. reflexivity.
  - split; [exact Hv|]. exists lines. split; [exact Hmsg|]. split.
    + apply (Hcc [js "not an address"; js "@"]). reflexivity.
    + apply (Hbcc [js "nobody"]). reflexivity.
Defined.

(** * Further properties *)

(** ** The header encoder *)

Lemma nonAscii_class (c : char) :
  class_match false true [CRange 0%N 127%N] c = negb (isAscii c).
Proof.
  unfold class_match, set_has, isAscii. cbn [existsb item_has andb].
  replace (0 <=? c)%N with true by (symmetry; apply N.leb_le; lia).
  destruct (c <=? 127)%N; reflexivity.
Qed.

Lemma nonAscii_searchFrom (s : jsstring) :
  forall prev i, 0 <= i ->
    (searchFrom nonAsciiRegex prev s i =? -1) = forallb isAscii s.
Proof.
  induction s as [|x s IH]; intros prev i Hi.
  - reflexivity.
  - cbn [searchFrom forallb]. unfold matchAt. cbn [nonAsciiRegex source ignoreCase multiline rmatch].
    rewrite nonAscii_class. destruct (isAscii x); cbn [negb andb accept].
    + apply IH. lia.
    + apply Z.eqb_neq. lia.
Qed.

Lemma test_nonAscii (s : jsstring) :
  test nonAsciiRegex s = negb (forallb isAscii s).
Proof.
  unfold test, search. now rewrite nonAscii_searchFrom by lia.
Qed.

(** X1: a header text made of ASCII characters only comes back unchanged;
    with any character above U+007F it comes back as the encoded word
    [=?UTF-8?B?], the base64 of the text, [?=]. *)
Theorem encodeEmailHeader_cases (utf8ToBase64 : jsstring -> jsstring) (text : jsstring) :
  encodeEmailHeader utf8ToBase64 text =
  if forallb isAscii text then text
  else js "=?UTF-8?B?" ++ utf8ToBase64 text ++ js "?=".
Proof.
  unfold encodeEmailHeader. rewrite test_nonAscii.
  destruct (forallb isAscii text); reflexivity.
Qed.

(** X2: when the base64 encoder yields ASCII characters only, so does the
    header encoder, on every text. *)
Theorem encodeEmailHeader_ascii (utf8ToBase64 : jsstring -> jsstring) :
  (forall t, forallb isAscii (utf8ToBase64 t) = true) ->
  forall text, forallb isAscii (encodeEmailHeader utf8ToBase64 text) = true.
Proof.
  intros Hb text. unfold encodeEmailHeader. rewrite test_nonAscii.
  destruct (forallb isAscii text) eqn:E; cbn [negb]; [exact E|].
  rewrite !forallb_app, Hb. reflexivity.
Qed.

Lemma digit64_ascii (v : N) : isAscii (Node.digit64 v) = true.
Proof.
  unfold Node.digit64, isAscii.
  destruct (v <? 26)%N eqn:E1; [apply N.ltb_lt in E1; apply N.leb_le; lia|].
  destruct (v <? 52)%N eqn:E2; [apply N.ltb_lt in E2; apply N.leb_le; lia|].
  destruct (v <? 62)%N eqn:E3; [apply N.ltb_lt in E3; apply N.leb_le; lia|].
  destruct (v =? 62)%N; reflexivity.
Qed.

Lemma pack_ascii (n : nat) :
  forall bytes, (length bytes <= n)%nat -> forallb isAscii (Node.pack bytes) = true.
Proof.
  induction n as [|n IH]; intros bytes Hn.
  - destruct bytes; [reflexivity | simpl in Hn; lia].
  - destruct bytes as [|a [|b [|c rest]]]; cbn [Node.pack forallb app];
      rewrite ?digit64_ascii; try reflexivity.
    cbn [andb]. apply IH. simpl in Hn. lia.
Qed.

Lemma Node_utf8ToBase64_ascii (t : jsstring) :
  forallb isAscii (Node.utf8ToBase64 t) = true.
Proof. unfold Node.utf8ToBase64. eapply pack_ascii. apply Nat.le_refl. Qed.

(** A subject with an accented letter. *)
Lemma encodeEmailHeader_ascii_witness :
  forallb isAscii (encodeEmailHeader Node.utf8ToBase64 (js "Caf" ++ [233%N])) = true /\
  encodeEmailHeader Node.utf8ToBase64 (js "Caf" ++ [233%N]) = js "=?UTF-8?B?Q2Fmw6k=?=".
Proof.
  split.
  - apply (encodeEmailHeader_ascii Node.utf8ToBase64 Node_utf8ToBase64_ascii).
  - vm_compute. reflexivity.
Defined.

(** ** Accepted addresses *)

Lemma accepted_shape (e : jsstring) : validateEmail e = true -> addressShape e.
Proof.
  intros H. apply validateEmail_start in H. apply emailRegex_matches.
  unfold matchAt in H. apply rmatch_succeeds in H.
  destruct H as (p' & s' & H & _). eauto.
Qed.

Lemma plainChar_props (c : char) :
  plainChar c = true ->
  isSpace c = false /\ isLineTerminator c = false /\ c <> ch "@".
Proof.
  unfold plainChar. intros H. apply andb_true_iff in H as [Hs Ha].
  apply negb_true_iff in Hs, Ha. apply N.eqb_neq in Ha.
  repeat split; try assumption.
  unfold isLineTerminator. unfold isSpace in Hs.
  destruct (c =? 10)%N, (c =? 13)%N, (c =? 8232)%N, (c =? 8233)%N;
    try reflexivity; rewrite ?orb_true_r in Hs; simpl in Hs; discriminate.
Qed.

Lemma count_plain (w : jsstring) :
  forallb plainChar w = true -> count_occ N.eq_dec w (ch "@") = 0%nat.
Proof.
  induction w as [|x w IH]; [reflexivity|]. cbn [forallb]. intros H.
  apply andb_true_iff in H as [Hx Hw]. apply plainChar_props in Hx as (_ & _ & Hx).
  rewrite count_occ_cons_neq by exact Hx. now apply IH.
Qed.

Lemma accepted_chars (e : jsstring) :
  validateEmail e = true ->
  forall c, In c e -> isSpace c = false /\ isLineTerminator c = false.
Proof.
  intros H. apply accepted_shape in H.
  destruct H as (l & d1 & d2 & -> & _ & _ & _ & Hlc & Hd1c & Hd2c).
  intros c Hc.
  assert (Hp : plainChar c = true \/ c = ch "@").
  { apply in_app_or in Hc as [Hc | [<- | Hc]].
    - left. rewrite forallb_forall in Hlc. now apply Hlc.
    - now right.
    - apply in_app_or in Hc as [Hc | [<- | Hc]].
      + left. rewrite forallb_forall in Hd1c. now apply Hd1c.
      + left. reflexivity.
      + left. rewrite forallb_forall in Hd2c. now apply Hd2c. }
  destruct Hp as [Hp | ->]; [|split; reflexivity].
  apply plainChar_props in Hp. tauto.
Qed.

(** X3: an address the validator accepts holds no white space and no line
    terminator, exactly one [@], and at least five characters. *)
Theorem validateEmail_accepted (e : jsstring) :
  validateEmail e = true ->
  (forall c, In c e -> isSpace c = false /\ isLineTerminator c = false) /\
  count_occ N.eq_dec e (ch "@") = 1%nat /\
  (5 <= length e)%nat.
Proof.
  intros H. split; [exact (accepted_chars e H)|].
  apply accepted_shape in H.
  destruct H as (l & d1 & d2 & -> & Hl & Hd1 & Hd2 & Hlc & Hd1c & Hd2c).
  split.
  - pose proof (count_plain _ Hlc) as El. pose proof (count_plain _ Hd1c) as E1.
    pose proof (count_plain _ Hd2c) as E2. unfold char, jsstring in *.
    rewrite count_occ_app, El. cbn [count_occ].
    destruct (N.eq_dec (ch "@") (ch "@")) as [_|Hne]; [|congruence].
    rewrite count_occ_app, E1.
    rewrite count_occ_cons_neq by discriminate.
    now rewrite E2.
  - rewrite length_app. cbn [length]. rewrite length_app. cbn [length].
    destruct l; [congruence|]. destruct d1; [congruence|]. destruct d2; [congruence|].
    cbn [length]. lia.
Qed.

Lemma validateEmail_accepted_witness :
  (forall c, In c (js "ann@example.com") ->
     isSpace c = false /\ isLineTerminator c = false) /\
  count_occ N.eq_dec (js "ann@example.com") (ch "@") = 1%nat /\
  (5 <= length (js "ann@example.com"))%nat.
Proof.
  apply (validateEmail_accepted (js "ann@example.com")). vm_compute. reflexivity.
Defined.

Lemma join_no_terminator (emails : list jsstring) :
  (forall e c, In e emails -> In c e -> isLineTerminator c = false) ->
  forall c, In c (join (js ", ") emails) -> isLineTerminator c = false.
Proof.
  induction emails as [|e emails IH]; intros Hall c Hc; [destruct Hc|].
  destruct emails as [|e' emails].
  - cbn [join] in Hc. apply (Hall e c); [now left | exact Hc].
  - change (join (js ", ") (e :: e' :: emails))
      with (e ++ js ", " ++ join (js ", ") (e' :: emails)) in Hc.
    apply in_app_or in Hc as [Hc | Hc]; [apply (Hall e c); [now left | exact Hc]|].
    apply in_app_or in Hc as [Hc | Hc].
    + vm_compute in Hc. destruct Hc as [<- | [<- | []]]; reflexivity.
    + apply IH; [|exact Hc]. intros e0 c0 He0. apply Hall. now right.
Qed.

(** X4: when every recipient passes the validator, the message starts
    with the lines [From: me] and [To: ...], and the [To] line holds no
    line terminator: the recipient list cannot break the header block. *)
Theorem createEmailMessage_to_line (utf8ToBase64 : jsstring -> jsstring)
    (random36 : jsstring) (args : EmailArgs) :
  forallb validateEmail (to args) = true ->
  exists rest,
    emailParts utf8ToBase64 random36 args
      = Ok (js "From: me" :: (js "To: " ++ join (js ", ") (to args)) :: rest) /\
    forall c, In c (js "To: " ++ join (js ", ") (to args)) ->
              isLineTerminator c = false.
Proof.
  intros Hto. unfold emailParts. rewrite (validateRecipients_valid _ Hto). cbn [bind].
  eexists. split.
  - unfold headerLines. cbn [filter nonempty js]. reflexivity.
  - intros c Hc. apply in_app_or in Hc as [Hc | Hc].
    + vm_compute in Hc.
      repeat (destruct Hc as [<- | Hc]; [reflexivity|]). destruct Hc.
    + revert c Hc. apply join_no_terminator. intros e c He Hc.
      rewrite forallb_forall in Hto.
      apply (accepted_chars e (Hto e He) c Hc).
Qed.

Lemma createEmailMessage_to_line_witness :
  exists rest,
    emailParts Node.utf8ToBase64 sampleRandom copiedArgs
      = Ok (js "From: me" :: (js "To: " ++ join (js ", ") (to copiedArgs)) :: rest) /\
    forall c, In c (js "To: " ++ join (js ", ") (to copiedArgs)) ->
              isLineTerminator c = false.
Proof.
  apply (createEmailMessage_to_line Node.utf8ToBase64 sampleRandom copiedArgs).
  vm_compute. reflexivity.
Defined.

(** ** The lines of a composed message *)

(** X5: the header block holds [From] and [To], a [Cc] and a [Bcc] line
    exactly when the list is given (an empty list still gives a line), the
    subject, [In-Reply-To] and [References] with the same value exactly
    when a non-empty reply target is given, and [MIME-Version]; no line of
    it is empty. *)
Theorem header_block (args : EmailArgs) (encodedSubject : jsstring) :
  filter nonempty (headerLines args encodedSubject) = headerBlock args encodedSubject /\
  Forall (fun line => line <> []) (headerBlock args encodedSubject).
Proof.
  assert (Heq : filter nonempty (headerLines args encodedSubject)
                = headerBlock args encodedSubject).
  { unfold headerLines, headerBlock.
    destruct (cc args) as [lc|], (bcc args) as [lb|], (inReplyTo args) as [[|r ref]|];
      reflexivity. }
  split; [exact Heq|]. rewrite <- Heq. apply Forall_forall.
  intros line Hin. apply filter_In in Hin as [_ Hne]. now destruct line.
Qed.

Section Shapes.

Variable utf8ToBase64 : jsstring -> jsstring.
Variable existsSync : jsstring -> bool.
Variable basename : jsstring -> jsstring.
Variable sendMail : MailOptions -> jsstring.

Lemma orElse_absent (o : option jsstring) (d : jsstring) :
  present o = false -> orElse o d = d.
Proof. destruct o as [s|]; [|reflexivity]. simpl. now intros ->. Qed.

(** X6: a message that is not [multipart/alternative] is a single part
    whose content is always the plain body, never the HTML body: the part
    is [text/html] when the request names that type and [text/plain] for
    every other type, named or not. *)
Theorem createEmailMessage_single_part (random36 : jsstring) (args : EmailArgs) :
  forallb validateEmail (to args) = true ->
  chosenMimeType args <> js "multipart/alternative" ->
  emailParts utf8ToBase64 random36 args =
  Ok (filter nonempty (headerLines args (encodeEmailHeader utf8ToBase64 (subject args)))
      ++ [ (if str_eqb (orElse (mimeType args) (js "text/plain")) (js "text/html")
            then js "Content-Type: text/html; charset=UTF-8"
            else js "Content-Type: text/plain; charset=UTF-8");
           js "Content-Transfer-Encoding: 7bit";
           [];
           body args ]).
Proof.
  intros Hto Hsingle. unfold emailParts.
  rewrite (validateRecipients_valid _ Hto). cbn [bind]. do 2 f_equal.
  unfold bodyLines.
  destruct (str_eqb (chosenMimeType args) (js "multipart/alternative")) eqn:Em;
    [apply str_eqb_eq in Em; contradiction|].
  unfold chosenMimeType in *.
  destruct (present (htmlBody args)
            && negb (str_eqb (orElse (mimeType args) (js "text/plain")) (js "text/plain")))
    eqn:Eb; [discriminate|].
  destruct (str_eqb (orElse (mimeType args) (js "text/plain")) (js "text/html")) eqn:Eh;
    [|reflexivity].
  apply str_eqb_eq in Eh. rewrite Eh in Eb.
  replace (str_eqb (js "text/html") (js "text/plain")) with false in Eb by reflexivity.
  cbn [negb] in Eb. rewrite andb_true_r in Eb.
  now rewrite (orElse_absent _ _ Eb).
Qed.

(** X7: a request that names [multipart/alternative] without an HTML body
    gets both parts all the same, and both carry the plain body. *)
Theorem createEmailMessage_alternative_fallback (random36 : jsstring) (args : EmailArgs) :
  forallb validateEmail (to args) = true ->
  mimeType args = Some (js "multipart/alternative") ->
  present (htmlBody args) = false ->
  let boundary := js "----=_NextPart_" ++ substringFrom 2 random36 in
  emailParts utf8ToBase64 random36 args =
  Ok (filter nonempty (headerLines args (encodeEmailHeader utf8ToBase64 (subject args)))
      ++ [ js "Content-Type: multipart/alternative; boundary=" ++ [quote] ++ boundary
             ++ [quote];
           [];
           js "--" ++ boundary;
           js "Content-Type: text/plain; charset=UTF-8";
           js "Content-Transfer-Encoding: 7bit";
           [];
           body args;
           [];
           js "--" ++ boundary;
           js "Content-Type: text/html; charset=UTF-8";
           js "Content-Transfer-Encoding: 7bit";
           [];
           body args;
           [];
           js "--" ++ boundary ++ js "--" ]).
Proof.
  intros Hto Hmime Hhtml boundary. unfold emailParts.
  rewrite (validateRecipients_valid _ Hto). cbn [bind]. do 2 f_equal.
  unfold chosenMimeType, bodyLines. rewrite Hmime, Hhtml. cbn [andb orElse nonempty js].
  rewrite (orElse_absent _ _ Hhtml). reflexivity.
Qed.

(** X8: the recipients are checked before the attachments: with an
    invalid recipient [createEmailWithNodemailer] throws the error naming
    the first one, whatever the attachment list holds, missing files
    included. *)
Theorem createEmailWithNodemailer_recipient_first (args : EmailArgs) :
  existsb (fun e => negb (validateEmail e)) (to args) = true ->
  exists good bad rest,
    to args = good ++ bad :: rest /\
    forallb validateEmail good = true /\ validateEmail bad = false /\
    createEmailWithNodemailer existsSync basename sendMail args
      = Throw (Error (js "Recipient email address is invalid: " ++ bad)).
Proof.
  intros H. destruct (first_invalid_split _ H) as (good & bad & rest & Hto & Hgood & Hbad).
  exists good, bad, rest. repeat split; try assumption.
  unfold createEmailWithNodemailer. rewrite Hto.
  now rewrite (validateRecipients_first_invalid good bad rest Hgood Hbad).
Qed.

Lemma prepareAttachments_first_missing (good : list jsstring) (bad : jsstring)
    (rest : list jsstring) :
  forallb existsSync good = true -> existsSync bad = false ->
  forall acc,
    prepareAttachments existsSync basename (good ++ bad :: rest) acc
      = Throw (missingFile bad).
Proof.
  induction good as [|p good IH]; simpl; intros Hgood Hbad acc.
  - now rewrite Hbad.
  - apply andb_true_iff in Hgood as [Hp Hgood]. rewrite Hp. simpl. now apply IH.
Qed.

(** X9: with valid recipients and a file that does not exist,
    [createEmailWithNodemailer] throws the error naming the first missing
    path of the list, and nothing is rendered. *)
Theorem createEmailWithNodemailer_first_missing (args : EmailArgs)
    (good : list jsstring) (bad : jsstring) (rest : list jsstring) :
  forallb validateEmail (to args) = true ->
  attachments args = Some (good ++ bad :: rest) ->
  forallb existsSync good = true -> existsSync bad = false ->
  createEmailWithNodemailer existsSync basename sendMail args
    = Throw (Error (js "File does not exist: " ++ bad)).
Proof.
  intros Hto Hatt Hgood Hbad. unfold createEmailWithNodemailer.
  rewrite (validateRecipients_valid _ Hto), Hatt. cbn [bind].
  now rewrite (@prepareAttachments_first_missing good bad rest Hgood Hbad).
Qed.

End Shapes.

Lemma createEmailMessage_single_part_witness :
  emailParts Node.utf8ToBase64 sampleRandom htmlOnlyArgs =
  Ok [ js "From: me"; js "To: ann@example.com"; js "Cc: "; js "Subject: Re: Hi";
       js "In-Reply-To: <id-1@example.com>"; js "References: <id-1@example.com>";
       js "MIME-Version: 1.0";
       js "Content-Type: text/html; charset=UTF-8";
       js "Content-Transfer-Encoding: 7bit";
       [];
       js "hello" ].
Proof.
  rewrite (createEmailMessage_single_part Node.utf8ToBase64 sampleRandom htmlOnlyArgs).
  - vm_compute. reflexivity.
  - vm_compute. reflexivity.
  - vm_compute. discriminate.
Defined.

Lemma createEmailMessage_alternative_fallback_witness :
  exists lines,
    emailParts Node.utf8ToBase64 sampleRandom alternativeArgs = Ok lines /\
    nth_error lines 10 = Some (js "hello") /\ nth_error lines 16 = Some (js "hello").
Proof.
  eexists. split.
  - apply (createEmailMessage_alternative_fallback Node.utf8ToBase64 sampleRandom
             alternativeArgs); vm_compute; reflexivity.
  - split; vm_compute; reflexivity.
Defined.

Lemma createEmailWithNodemailer_recipient_first_witness :
  createEmailWithNodemailer (Node.existsIn sampleFiles) Node.basename Node.render
    brokenArgs
  = Throw (Error (js "Recipient email address is invalid: bob")).
Proof.
  destruct (createEmailWithNodemailer_recipient_first (Node.existsIn sampleFiles)
              Node.basename Node.render brokenArgs)
    as (good & bad & rest & Hto & Hgood & Hbad & Hthrow).
  - vm_compute. reflexivity.
  - destruct good as [|g [|g' good]].
    + injection Hto as <- _. vm_compute in Hbad. discriminate.
    + injection Hto as _ <- _. exact Hthrow.
    + destruct good; discriminate Hto.
Defined.

Lemma createEmailWithNodemailer_first_missing_witness :
  createEmailWithNodemailer (Node.existsIn sampleFiles) Node.basename Node.render
    missingFileArgs
  = Throw (Error (js "File does not exist: /tmp/missing.txt")).
Proof.
  apply (createEmailWithNodemailer_first_missing (Node.existsIn sampleFiles)
           Node.basename Node.render missingFileArgs
           [js "/tmp/a.txt"] (js "/tmp/missing.txt") [js "/nowhere"]);
    vm_compute; reflexivity.
Defined.

(** ** Decoding a body *)

Lemma replaceAll_char (a b : char) (s : jsstring) :
  forall prev,
    replaceFrom (mkRegExp (Chr a) false false) [b] prev s 0
    = map (fun c => if (c =? a)%N then b else c) s.
Proof.
  induction s as [|x s IH]; intros prev; [reflexivity|].
  cbn [replaceFrom map]. unfold matchAt.
  cbn [source ignoreCase multiline rmatch accept].
  unfold chr_match, canonicalize. cbn [andb]. rewrite (N.eqb_sym a x).
  destruct (x =? a)%N.
  - unfold accept.
    replace (length (x :: s) - length s)%nat with 1%nat by (cbn [length]; lia).
    cbn [Nat.eqb pred app]. now rewrite IH.
  - now rewrite IH.
Qed.

(** X10: before it is decoded, the data has every [-] turned into [+]
    and every [_] into [/], character by character; nothing else changes
    and the length is kept. *)
Theorem standardAlphabet_map (data : jsstring) :
  standardAlphabet data = map toStandardChar data /\
  length (standardAlphabet data) = length data.
Proof.
  assert (H : standardAlphabet data = map toStandardChar data).
  { unfold standardAlphabet, replaceAll, dashRegex, underscoreRegex.
    change (js "+") with [ch "+"]. change (js "/") with [ch "/"].
    rewrite !replaceAll_char, map_map. apply map_ext. intros c.
    unfold toStandardChar. destruct (c =? ch "-")%N eqn:E; [reflexivity|].
    reflexivity. }
  split; [exact H|]. rewrite H. apply length_map.
Qed.

(** ** Walking the part tree *)

Section Walk.

Variable base64ToUtf8 : jsstring -> jsstring.

Lemma extractEach_collects (parts : list JsVal) (results : list (jsstring * jsstring)) :
  Forall2 (fun p r => extract base64ToUtf8 p = Ok r) parts results ->
  forall text html,
    extractEach (extract base64ToUtf8) parts text html
    = Ok (text ++ concat (map fst results), html ++ concat (map snd results)).
Proof.
  induction 1 as [|p [t h] parts results Hp _ IH]; intros text html.
  - cbn. now rewrite !app_nil_r.
  - cbn [extractEach]. rewrite Hp. cbn [bind map concat fst snd].
    rewrite IH. now rewrite <- !app_assoc.
Qed.

(** X11: a part contributes its own decoded data first, as plain text
    when its type is exactly [text/plain], as HTML when it is exactly
    [text/html] and not at all for any other type, and then what its
    sub-parts contribute, in the order of the array. *)
Theorem extract_part (mime : string) (data : jsstring) (parts : list JsVal)
    (results : list (jsstring * jsstring)) :
  nonempty data = true ->
  Forall2 (fun p r => extract base64ToUtf8 p = Ok r) parts results ->
  let d := base64ToUtf8 (standardAlphabet data) in
  extract base64ToUtf8 (partWith mime data parts)
  = Ok ((if str_eqb (js mime) (js "text/plain") then d else [])
          ++ concat (map fst results),
        (if str_eqb (js mime) (js "text/plain") then []
         else if str_eqb (js mime) (js "text/html") then d else [])
          ++ concat (map snd results)).
Proof.
  intros Hd Hall d. unfold partWith.
  cbn [obj extract lookupProp String.eqb Ascii.eqb Bool.eqb optProp prop isStr truthy].
  rewrite Hd. unfold decodeBody. cbn [truthy]. rewrite Hd. cbn [negb andb].
  rewrite !andb_true_r. fold (standardAlphabet data). fold d.
  destruct (str_eqb (js mime) (js "text/plain")); cbn [bind].
  - now rewrite (extractEach_collects Hall).
  - destruct (str_eqb (js mime) (js "text/html")); cbn [bind];
      now rewrite (extractEach_collects Hall).
Qed.

Lemma extract_leaf (mime : string) (data : jsstring) :
  nonempty data = true ->
  extract base64ToUtf8 (leaf mime data) =
  let d := base64ToUtf8 (standardAlphabet data) in
  Ok (if str_eqb (js mime) (js "text/plain") then (d, [])
      else if str_eqb (js mime) (js "text/html") then ([], d)
      else ([], [])).
Proof.
  intros Hd. unfold leaf.
  cbn [obj extract lookupProp String.eqb Ascii.eqb Bool.eqb optProp prop isStr truthy].
  rewrite Hd. unfold decodeBody. cbn [truthy]. rewrite Hd. cbn [negb andb].
  rewrite !andb_true_r.
  destruct (str_eqb (js mime) (js "text/plain")); [reflexivity|].
  destruct (str_eqb (js mime) (js "text/html")); reflexivity.
Qed.

Lemma extract_container_aux (plainData htmlData : jsstring) :
  nonempty plainData = true -> nonempty htmlData = true ->
  extract base64ToUtf8
    (container "multipart/alternative"
       [leaf "text/plain" plainData; leaf "text/html" htmlData])
  = Ok (base64ToUtf8 (standardAlphabet plainData),
        base64ToUtf8 (standardAlphabet htmlData)).
Proof.
  intros Hp Hh. unfold container.
  cbn [obj extract lookupProp String.eqb Ascii.eqb Bool.eqb optProp prop isStr].
  replace (str_eqb (js "multipart/alternative") (js "text/plain")) with false
    by reflexivity.
  replace (str_eqb (js "multipart/alternative") (js "text/html")) with false
    by reflexivity.
  cbn [andb bind extractEach].
  rewrite (@extract_leaf "text/plain" plainData Hp).
  rewrite (@extract_leaf "text/html" htmlData Hh). cbv zeta.
  change (str_eqb (js "text/plain") (js "text/plain")) with true.
  change (str_eqb (js "text/html") (js "text/plain")) with false.
  change (str_eqb (js "text/html") (js "text/html")) with true.
  cbn [bind app]. now rewrite app_nil_r.
Qed.

(** X12: for a plain part and an HTML part side by side, the plain text
    is the body whenever it is not blank, and the HTML part is then
    ignored; a blank plain text gives way to the HTML part, converted to
    text. *)
Theorem makeEmailBodyLLMSafe_prefers_plain (plainData htmlData : jsstring)
    (opts : option (option Z)) :
  nonempty plainData = true -> nonempty htmlData = true ->
  let text := base64ToUtf8 (standardAlphabet plainData) in
  let html := base64ToUtf8 (standardAlphabet htmlData) in
  makeEmailBodyLLMSafe base64ToUtf8
    (container "multipart/alternative"
       [leaf "text/plain" plainData; leaf "text/html" htmlData]) opts
  = Ok (truncate (maxCharsOf opts)
          (stripFooters (stripQuoted
             (if nonempty (trim text) then trim text else htmlToText html)))).
Proof.
  intros Hp Hh text html. unfold makeEmailBodyLLMSafe.
  assert (Hex : extract base64ToUtf8
            (container "multipart/alternative"
               [leaf "text/plain" plainData; leaf "text/html" htmlData])
          = Ok (text, html)).
  { exact (@extract_container_aux plainData htmlData Hp Hh). }
  cbn [truthy container obj]. fold (container "multipart/alternative"
    [leaf "text/plain" plainData; leaf "text/html" htmlData]).
  rewrite Hex. clear Hex. clearbody text html. cbn [bind].
  destruct (nonempty text) eqn:Et; cbv iota.
  - destruct (nonempty (trim text)) eqn:Ett; cbv iota; rewrite ?Ett;
      cbn [negb andb nonempty]; [reflexivity|].
    destruct html; reflexivity.
  - destruct text; [|discriminate].
    change (trim []) with (@nil char). cbn [nonempty negb andb].
    destruct html; reflexivity.
Qed.

End Walk.

Lemma extract_part_witness :
  extract Node.base64ToUtf8
    (partWith "text/plain" hiThereData
       [ leaf "text/html" helloWorldData;
         partWith "application/pdf" foxData [leaf "text/plain" secondData] ])
  = Ok (js "Hi theresecond", helloWorldHtml).
Proof.
  rewrite (@extract_part Node.base64ToUtf8 "text/plain" hiThereData _
             [([], helloWorldHtml); (js "second", [])] eq_refl).
  - vm_compute. reflexivity.
  - repeat constructor; vm_compute; reflexivity.
Defined.

Lemma makeEmailBodyLLMSafe_prefers_plain_witness :
  makeEmailBodyLLMSafe Node.base64ToUtf8
    (container "multipart/alternative"
       [leaf "text/plain" hiThereData; leaf "text/html" helloWorldData]) None
    = Ok (js "Hi there") /\
  makeEmailBodyLLMSafe Node.base64ToUtf8
    (container "multipart/alternative"
       [leaf "text/plain" blankData; leaf "text/html" helloWorldData]) None
    = Ok (js "Hello" ++ [LF] ++ js " World").
Proof.
  split.
  - rewrite (@makeEmailBodyLLMSafe_prefers_plain Node.base64ToUtf8
               hiThereData helloWorldData None eq_refl eq_refl).
    vm_compute. reflexivity.
  - rewrite (@makeEmailBodyLLMSafe_prefers_plain Node.base64ToUtf8
               blankData helloWorldData None eq_refl eq_refl).
    vm_compute. reflexivity.
Defined.

(** ** Trimming and cutting *)

Lemma dropWhile_suffix (f : char -> bool) (s : jsstring) :
  exists a, s = a ++ dropWhile f s.
Proof.
  induction s as [|x s [a IH]]; [now exists []|]. cbn [dropWhile].
  destruct (f x); [|now exists []].
  exists (x :: a). cbn [app]. now rewrite <- IH.
Qed.

Lemma dropWhile_fixed (f : char -> bool) (s : jsstring) :
  dropWhile f (dropWhile f s) = dropWhile f s.
Proof.
  induction s as [|x s IH]; [reflexivity|]. cbn [dropWhile].
  destruct (f x) eqn:E; [exact IH|]. cbn [dropWhile]. now rewrite E.
Qed.

Lemma dropWhile_length (f : char -> bool) (s : jsstring) :
  (length (dropWhile f s) <= length s)%nat.
Proof.
  destruct (dropWhile_suffix f s) as [a Ha]. rewrite Ha at 2.
  rewrite length_app. lia.
Qed.

Lemma trimEnd_prefix (s : jsstring) : exists b, s = trimEnd s ++ b.
Proof.
  unfold trimEnd. destruct (dropWhile_suffix isSpace (rev s)) as [a Ha].
  exists (rev a). rewrite <- rev_app_distr, <- Ha. now rewrite rev_involutive.
Qed.

Lemma trimEnd_fixed (s : jsstring) : trimEnd (trimEnd s) = trimEnd s.
Proof. unfold trimEnd. now rewrite rev_involutive, dropWhile_fixed. Qed.

Lemma trimStart_trimEnd (s : jsstring) :
  trimStart s = s -> trimStart (trimEnd s) = trimEnd s.
Proof.
  intros Hs. destruct (trimEnd_prefix s) as [b Hb].
  destruct (trimEnd s) as [|x t] eqn:E; [reflexivity|].
  rewrite Hb in Hs. unfold trimStart in *. cbn [app dropWhile] in *.
  destruct (isSpace x); [|reflexivity].
  exfalso. pose proof (dropWhile_length isSpace (t ++ b)) as Hlen.
  rewrite Hs in Hlen. cbn [length] in Hlen. lia.
Qed.

Lemma trim_fixed (s : jsstring) : trim (trim s) = trim s.
Proof.
  unfold trim.
  rewrite (@trimStart_trimEnd (trimStart s)) by apply dropWhile_fixed.
  apply trimEnd_fixed.
Qed.

Lemma trim_length (s : jsstring) : (length (trim s) <= length s)%nat.
Proof.
  unfold trim. destruct (trimEnd_prefix (trimStart s)) as [b Hb].
  pose proof (dropWhile_length isSpace s) as H. fold (trimStart s) in H.
  rewrite Hb in H. rewrite length_app in H. lia.
Qed.

Lemma search_range (re : RegExp) (s : jsstring) :
  search re s = -1 \/ exists j, (j <= length s)%nat /\ search re s = Z.of_nat j.
Proof.
  unfold search.
  destruct (searchFrom_spec re s None 0) as [[Hs _] | (j & Hj & Hs & _)].
  - now left.
  - right. exists j. split; [exact Hj | lia].
Qed.

Lemma firstMarker_prefix (markers : list RegExp) (s r : jsstring) :
  firstMarker markers s = Some r ->
  exists j, (j <= length s)%nat /\ r = trim (firstn j s).
Proof.
  induction markers as [|re markers IH]; cbn [firstMarker]; [discriminate|].
  destruct (search_range re s) as [Hs | (j & Hj & Hs)]; rewrite Hs.
  - cbn [Z.eqb negb]. exact IH.
  - replace (Z.of_nat j =? -1) with false by (symmetry; apply Z.eqb_neq; lia).
    cbn [negb]. intros [= <-]. exists j. split; [exact Hj|].
    now rewrite slice_prefix.
Qed.

Lemma strip_stages_cut_aux (s : jsstring) :
  (exists j, (j <= length s)%nat /\ stripQuoted s = trim (firstn j s)) /\
  (stripFooters s = s \/
   exists j, (j <= length s)%nat /\ stripFooters s = trim (firstn j s)).
Proof.
  split.
  - unfold stripQuoted. destruct (firstMarker quotedMarkers s) as [r|] eqn:E.
    + exact (firstMarker_prefix _ _ E).
    + exists (length s). split; [lia|]. now rewrite firstn_all.
  - unfold stripFooters. destruct (firstMarker footerMarkers s) as [r|] eqn:E.
    + right. exact (firstMarker_prefix _ _ E).
    + now left.
Qed.

(** X13: the two stripping stages only cut: each returns a prefix of its
    input, trimmed (or, for the footers, the input itself), so neither
    adds a character and neither returns more than it was given. *)
Theorem strip_stages_cut (s : jsstring) :
  (exists j, (j <= length s)%nat /\ stripQuoted s = trim (firstn j s)) /\
  (stripFooters s = s \/
   exists j, (j <= length s)%nat /\ stripFooters s = trim (firstn j s)) /\
  (length (stripQuoted s) <= length s)%nat /\
  (length (stripFooters s) <= length s)%nat.
Proof.
  destruct (strip_stages_cut_aux s) as [Hq Hf].
  split; [exact Hq|]. split; [exact Hf|]. split.
  - destruct Hq as (j & Hj & ->). pose proof (trim_length (firstn j s)) as H.
    rewrite length_firstn in H. lia.
  - destruct Hf as [-> | (j & Hj & ->)]; [lia|].
    pose proof (trim_length (firstn j s)) as H. rewrite length_firstn in H. lia.
Qed.

(** X14: what [stripQuoted] returns is trimmed, and so is what
    [stripFooters] makes of it: trimming either once more changes
    nothing. *)
Theorem strip_stages_trimmed (s : jsstring) :
  trim (stripQuoted s) = stripQuoted s /\
  trim (stripFooters (stripQuoted s)) = stripFooters (stripQuoted s).
Proof.
  assert (Hq : trim (stripQuoted s) = stripQuoted s).
  { destruct (proj1 (strip_stages_cut_aux s)) as (j & _ & ->). apply trim_fixed. }
  split; [exact Hq|].
  destruct (proj2 (strip_stages_cut_aux (stripQuoted s))) as [-> | (j & _ & ->)];
    [exact Hq | apply trim_fixed].
Qed.

(** X15: with a negative budget the end of the text is cut off, as many
    characters as the budget is below zero, and the marker is appended to
    every text, the empty one included. *)
Theorem truncate_negative (M : Z) (s : jsstring) :
  M < 0 ->
  truncate M s = firstn (length s - Z.to_nat (- M)) s ++ truncationMarker.
Proof.
  intros HM. unfold truncate.
  destruct (Z.of_nat (length s) <=? M) eqn:E; [apply Z.leb_le in E; lia|].
  f_equal. unfold slice, clampIndex.
  replace (0 <? 0) with false by reflexivity.
  replace (M <? 0) with true by (symmetry; apply Z.ltb_lt; exact HM).
  rewrite Z.min_l by lia. cbn [Z.to_nat skipn]. f_equal. lia.
Qed.

Lemma truncate_negative_witness :
  truncate (-2) (js "abcdef") = js "abcd" ++ truncationMarker /\
  truncate (-2) [] = truncationMarker.
Proof.
  split.
  - apply (@truncate_negative (-2) (js "abcdef")). lia.
  - apply (@truncate_negative (-2) []). lia.
Defined.

(** ** Markers at the start of a line *)

Lemma stateAt_prev_in (s : jsstring) :
  forall prev i, (0 < i <= length s)%nat ->
    exists c, fst (stateAt prev s i) = Some c /\ In c s.
Proof.
  induction s as [|c s IH]; intros prev i Hi; simpl in Hi; [lia|].
  destruct i as [|i]; [lia|]. cbn [stateAt].
  destruct i as [|i].
  - cbn [stateAt fst]. exists c. split; [reflexivity | now left].
  - destruct (IH (Some c) (S i)) as (d & Hd & Hin); [lia|].
    exists d. split; [exact Hd | now right].
Qed.

Lemma quoted_not_mid_line (re : RegExp) (c : char) (s : jsstring) :
  In re quotedMarkers -> isLineTerminator c = false -> matchAt re (Some c) s = None.
Proof.
  intros Hre Hc. unfold matchAt.
  repeat (destruct Hre as [<- | Hre];
    [cbn [source multiline ignoreCase Seqs rmatch at_bol andb]; now rewrite Hc|]).
  destruct Hre.
Qed.

Lemma bol_word_first_char (ic ml : bool) (c : char) (r1 r2 : regex) (x : char)
    (rest : jsstring) (k : cont) :
  chr_match ic c x = false ->
  rmatch ic ml (Seq Bol (Seq (Seq (Chr c) r1) r2)) None (x :: rest) k = None.
Proof. intros H. cbn [rmatch at_bol]. now rewrite H. Qed.

Lemma bol_char_first_char (ic ml : bool) (c : char) (r2 : regex) (x : char)
    (rest : jsstring) (k : cont) :
  chr_match ic c x = false ->
  rmatch ic ml (Seq Bol (Seq (Chr c) r2)) None (x :: rest) k = None.
Proof. intros H. cbn [rmatch at_bol]. now rewrite H. Qed.

Lemma quoted_first_char (re : RegExp) (s : jsstring) :
  In re quotedMarkers ->
  (forall x rest, s = x :: rest ->
     x <> ch "O" /\ x <> ch "F" /\ x <> ch "-" /\ x <> ch ">") ->
  matchAt re None s = None.
Proof.
  intros Hre Hs. unfold matchAt.
  destruct s as [|x rest].
  - repeat (destruct Hre as [<- | Hre]; [reflexivity|]). destruct Hre.
  - destruct (Hs x rest eq_refl) as (HO & HF & HD & HG).
    assert (EO : chr_match false (ch "O") x = false)
      by (apply N.eqb_neq; congruence).
    assert (EF : chr_match false (ch "F") x = false)
      by (apply N.eqb_neq; congruence).
    assert (ED : chr_match false (ch "-") x = false)
      by (apply N.eqb_neq; congruence).
    assert (EG : chr_match false (ch ">") x = false)
      by (apply N.eqb_neq; congruence).
    destruct Hre as [<- | [<- | [<- | [<- | []]]]];
      cbn [source ignoreCase multiline].
    + apply bol_word_first_char. exact EO.
    + apply bol_word_first_char. exact EF.
    + apply bol_word_first_char. exact ED.
    + apply bol_char_first_char. exact EG.
Qed.

(** X16: the quoted-reply markers are recognised at the start of a line
    only: a text without a line terminator that does not begin with [O],
    [F], [-] or [>] is returned whole, trimmed, wherever [From: ] or
    [wrote:] stand inside it. *)
Theorem stripQuoted_one_line (s : jsstring) :
  (forall c, In c s -> isLineTerminator c = false) ->
  (forall x rest, s = x :: rest ->
     x <> ch "O" /\ x <> ch "F" /\ x <> ch "-" /\ x <> ch ">") ->
  stripQuoted s = trim s.
Proof.
  intros Hline Hfirst. unfold stripQuoted.
  rewrite firstMarker_none; [reflexivity|].
  intros re j Hre Hj. unfold matchesAt, matchesFrom.
  destruct j as [|j].
  - cbn [stateAt fst snd]. now rewrite (@quoted_first_char re s Hre Hfirst).
  - destruct (@stateAt_prev_in s None (S j)) as (c & Hc & Hin); [lia|].
    rewrite Hc. now rewrite (@quoted_not_mid_line re c _ Hre (Hline c Hin)).
Qed.

Lemma stripQuoted_one_line_witness :
  stripQuoted oneLineText = js "Mail From: bob, who On Monday wrote: hello".
Proof.
  rewrite (@stripQuoted_one_line oneLineText).
  - vm_compute. reflexivity.
  - intros c Hc. vm_compute in Hc.
    repeat (destruct Hc as [<- | Hc]; [reflexivity|]). destruct Hc.
  - intros x rest [= <- _]. repeat split; discriminate.
Defined.

(** ** Runs of blanks *)

Lemma star_class_greedy (ic ml neg : bool) (items : list citem) (n : nat) :
  forall prev s, (length s <= n)%nat ->
    repeatMatcher (rmatch ic ml (Class neg items)) true accept n prev s
    = Some (dropWhile (class_match ic neg items) s).
Proof.
  induction n as [|n IH]; intros prev s Hn.
  - destruct s; [reflexivity | simpl in Hn; lia].
  - cbn [repeatMatcher rmatch]. destruct s as [|x s]; [reflexivity|].
    cbn [dropWhile]. destruct (class_match ic neg items x); [|reflexivity].
    replace (length s <? length (x :: s))%nat with true
      by (symmetry; apply Nat.ltb_lt; cbn [length]; lia).
    rewrite IH by (simpl in Hn; lia). reflexivity.
Qed.

Lemma blank_class (c : char) :
  class_match false false [CChar 32%N; CChar 9%N] c = isBlank c.
Proof.
  unfold class_match, set_has, isBlank. cbn [existsb item_has andb].
  now rewrite !orb_false_r.
Qed.

Lemma dropWhile_ext (f g : char -> bool) (s : jsstring) :
  (forall c, f c = g c) -> dropWhile f s = dropWhile g s.
Proof.
  intros H. induction s as [|x s IH]; [reflexivity|].
  cbn [dropWhile]. rewrite H, IH. reflexivity.
Qed.

Lemma rmatch_plus_class (ic ml neg : bool) (items : list citem)
    (prev : option char) (s : jsstring) (k : cont) :
  rmatch ic ml (Plus (Class neg items)) prev s k =
  match s with
  | x :: rest =>
      if class_match ic neg items x
      then repeatMatcher (rmatch ic ml (Class neg items)) true k (length rest)
             (Some x) rest
      else None
  | [] => None
  end.
Proof. destruct s; reflexivity. Qed.

Lemma matchAt_blanks (prev : option char) (s : jsstring) :
  matchAt blanksRegex prev s =
  match s with
  | x :: rest => if isBlank x then Some (dropWhile isBlank rest) else None
  | [] => None
  end.
Proof.
  unfold matchAt, blanksRegex. cbn [source ignoreCase multiline].
  rewrite rmatch_plus_class.
  destruct s as [|x rest]; [reflexivity|]. rewrite blank_class.
  destruct (isBlank x); [|reflexivity].
  rewrite star_class_greedy by apply Nat.le_refl.
  f_equal. apply dropWhile_ext. exact blank_class.
Qed.

Lemma leadingBlanks_length (s : jsstring) :
  length s = (leadingBlanks s + length (dropWhile isBlank s))%nat.
Proof.
  induction s as [|x s IH]; [reflexivity|]. cbn [leadingBlanks dropWhile].
  destruct (isBlank x); cbn [length]; lia.
Qed.

Lemma replace_blanks (s : jsstring) :
  (forall prev, replaceFrom blanksRegex (js " ") prev s 0 = collapseBlanks false s) /\
  (forall prev, replaceFrom blanksRegex (js " ") prev s (leadingBlanks s)
                = collapseBlanks true s).
Proof.
  induction s as [|x s [IH0 IHrun]].
  - split; reflexivity.
  - assert (Hzero : forall prev,
        replaceFrom blanksRegex (js " ") prev (x :: s) 0
        = collapseBlanks false (x :: s)).
    { intros prev. cbn [replaceFrom collapseBlanks]. rewrite matchAt_blanks.
      destruct (isBlank x).
      - replace (length (x :: s) - length (dropWhile isBlank s))%nat
          with (S (leadingBlanks s))
          by (cbn [length]; rewrite (leadingBlanks_length s) at 1; lia).
        cbn [Nat.eqb pred app js map list_ascii_of_string].
        now rewrite IHrun.
      - now rewrite IH0. }
    split; [exact Hzero|]. intros prev.
    cbn [leadingBlanks]. destruct (isBlank x) eqn:E.
    + cbn [replaceFrom collapseBlanks]. rewrite E. apply IHrun.
    + rewrite Hzero. cbn [collapseBlanks]. now rewrite E.
Qed.

Lemma collapse_run_head (s : jsstring) :
  match collapseBlanks true s with
  | c :: _ => isBlank c = false
  | [] => True
  end.
Proof.
  induction s as [|x s IH]; [exact I|]. cbn [collapseBlanks].
  destruct (isBlank x) eqn:E; [exact IH | exact E].
Qed.

Lemma collapse_singleSpaced (s : jsstring) :
  forall inRun, singleSpaced (collapseBlanks inRun s) = true.
Proof.
  induction s as [|x s IH]; intros inRun; [reflexivity|].
  cbn [collapseBlanks]. destruct (isBlank x) eqn:E.
  - destruct inRun; [apply IH|].
    cbn [singleSpaced]. rewrite IH.
    pose proof (collapse_run_head s) as Hh.
    destruct (collapseBlanks true s) as [|d t]; [reflexivity|].
    unfold isBlank in Hh. apply orb_false_iff in Hh as [Hd _]. rewrite Hd.
    reflexivity.
  - cbn [singleSpaced]. rewrite IH.
    unfold isBlank in E. apply orb_false_iff in E as [E32 E9]. rewrite E9, E32.
    destruct (collapseBlanks false s); reflexivity.
Qed.

Lemma singleSpaced_app (a b : jsstring) :
  singleSpaced (a ++ b) = true -> singleSpaced a = true /\ singleSpaced b = true.
Proof.
  induction a as [|x a IH]; [now split|]. cbn [app singleSpaced]. intros H.
  apply andb_true_iff in H as [H Hab]. apply andb_true_iff in H as [Hx Hadj].
  destruct (IH Hab) as [Ha Hb]. split; [|exact Hb].
  rewrite Hx, Ha. destruct a as [|y a]; [reflexivity|].
  cbn [app] in Hadj. now rewrite Hadj.
Qed.

Lemma trim_singleSpaced (s : jsstring) :
  singleSpaced s = true -> singleSpaced (trim s) = true.
Proof.
  intros H. unfold trim.
  destruct (dropWhile_suffix isSpace s) as [a Ha]. fold (trimStart s) in Ha.
  destruct (trimEnd_prefix (trimStart s)) as [b Hb].
  rewrite Ha in H. apply singleSpaced_app in H as [_ H].
  rewrite Hb in H. now apply singleSpaced_app in H as [H _].
Qed.

(** X17: the text [htmlToText] returns holds no tab and no two spaces in
    a row, and no white space at either end. *)
Theorem htmlToText_spacing (html : jsstring) :
  singleSpaced (htmlToText html) = true /\
  trim (htmlToText html) = htmlToText html.
Proof.
  unfold htmlToText. destruct (negb (nonempty html)); [split; reflexivity|].
  cbv zeta. split; [|apply trim_fixed].
  apply trim_singleSpaced. unfold replaceAll at 1.
  rewrite (proj1 (replace_blanks _)). apply collapse_singleSpaced.
Qed.

(** ** The form of the result *)

Section ResultForm.

Variable base64ToUtf8 : jsstring -> jsstring.

(** X18: on every part tree and for a budget [maxChars >= 0], the result
    is either a trimmed text of at most [maxChars] characters, or
    [maxChars] characters followed by the truncation marker. *)
Theorem makeEmailBodyLLMSafe_result_form (payload : JsVal) (opts : option (option Z)) :
  wfPayload payload = true -> 0 <= maxCharsOf opts ->
  exists s,
    makeEmailBodyLLMSafe base64ToUtf8 payload opts = Ok s /\
    ((Z.of_nat (length s) <= maxCharsOf opts /\ trim s = s) \/
     (exists cut, s = cut ++ truncationMarker /\
                  Z.of_nat (length cut) = maxCharsOf opts)).
Proof.
  intros Hwf HM. unfold makeEmailBodyLLMSafe.
  assert (Hex : Returns (extract base64ToUtf8 (if truthy payload then payload else obj []))).
  { destruct payload; try discriminate;
      try (apply (proj1 (extract_returns _ _)); reflexivity).
    simpl truthy. cbv iota. apply (proj1 (extract_returns _ _)). exact Hwf. }
  destruct Hex as ([text html] & ->). cbn [bind]. cbv zeta.
  match goal with
  | |- context [stripFooters (stripQuoted ?b)] => set (body := b)
  end.
  eexists. split; [reflexivity|].
  destruct (Z_le_gt_dec (Z.of_nat (length (stripFooters (stripQuoted body))))
              (maxCharsOf opts)) as [Hle | Hgt].
  - left. rewrite truncate_short by exact Hle. split; [exact Hle|].
    destruct (proj2 (strip_stages_cut_aux (stripQuoted body))) as [-> | (j & _ & ->)].
    + destruct (proj1 (strip_stages_cut_aux body)) as (j & _ & ->). apply trim_fixed.
    + apply trim_fixed.
  - right. rewrite truncate_long by lia. eexists. split; [reflexivity|].
    rewrite length_firstn. lia.
Qed.

End ResultForm.

Lemma makeEmailBodyLLMSafe_result_form_witness :
  exists s,
    makeEmailBodyLLMSafe Node.base64ToUtf8 nestedPayload None = Ok s /\
    ((Z.of_nat (length s) <= maxCharsOf None /\ trim s = s) \/
     (exists cut, s = cut ++ truncationMarker /\
                  Z.of_nat (length cut) = maxCharsOf None)).
Proof.
  apply (@makeEmailBodyLLMSafe_result_form Node.base64ToUtf8 nestedPayload None).
  - vm_compute. reflexivity.
  - simpl. lia.
Defined.

(** ** The sanitizer on a call stack *)

Section Stack.

Variable base64ToUtf8 : jsstring -> jsstring.

Lemma height_positive (v : JsVal) : (1 <= height v)%nat.
Proof. destruct v; cbn [height]; lia. Qed.

Lemma extractEach_ext (f g : JsVal -> Result (jsstring * jsstring))
    (parts : list JsVal) :
  (forall p, In p parts -> f p = g p) ->
  forall text html, extractEach f parts text html = extractEach g parts text html.
Proof.
  induction parts as [|p parts IH]; intros Hfg text html; [reflexivity|].
  cbn [extractEach]. rewrite (Hfg p) by now left.
  destruct (g p) as [[ctext chtml]|e]; cbn [bind]; [|reflexivity].
  apply IH. intros q Hq. apply Hfg. now right.
Qed.

(** With room on the stack for the depth of the tree, the stack plays no
    part. *)
Lemma extractOnStack_agrees (frames : nat) :
  forall part, (height part <= frames)%nat ->
    extractOnStack base64ToUtf8 frames part = extract base64ToUtf8 part.
Proof.
  induction frames as [|below IH]; intros part Hfit.
  - pose proof (height_positive part). lia.
  - destruct part as [ | | | | | | props]; try reflexivity.
    cbn [extractOnStack extract].
    match goal with
    | |- bind ?m _ = bind ?m _ => destruct m as [[text html]|e]
    end; cbn [bind]; [|reflexivity].
    cbn [height] in Hfit.
    destruct (props "parts"%string) as [ | | | | | parts | ]; try reflexivity.
    apply extractEach_ext. intros p Hp. apply IH.
    assert (Hmax : (list_max (map height parts) <= below)%nat) by lia.
    rewrite list_max_le, Forall_forall in Hmax. apply Hmax.
    now apply in_map.
Qed.

Lemma makeEmailBodyLLMSafeOnStack_agrees (frames : nat) (payload : JsVal)
    (opts : option (option Z)) :
  (height payload <= frames)%nat ->
  makeEmailBodyLLMSafeOnStack base64ToUtf8 frames payload opts
  = makeEmailBodyLLMSafe base64ToUtf8 payload opts.
Proof.
  intros Hfit. unfold makeEmailBodyLLMSafeOnStack, makeEmailBodyLLMSafe.
  rewrite extractOnStack_agrees; [reflexivity|].
  destruct (truthy payload); [exact Hfit|].
  pose proof (height_positive payload). cbn [height obj lookupProp]. lia.
Qed.

(** Without that room the call throws. *)
Lemma extractOnStack_overflow (frames : nat) :
  forall v,
    extractOnStack base64ToUtf8 frames (nest frames v)
    = Throw (RangeError (js "Maximum call stack size exceeded")).
Proof.
  induction frames as [|below IH]; intros v; [reflexivity|].
  cbn [nest extractOnStack obj lookupProp String.eqb Ascii.eqb Bool.eqb optProp prop
       isStr andb bind extractEach].
  now rewrite IH.
Qed.

Lemma decodeBody_ok (data : JsVal) :
  negb (truthy data) || isString data = true ->
  Returns (decodeBody base64ToUtf8 data).
Proof.
  unfold decodeBody, Returns. destruct (negb (truthy data)) eqn:E; [eauto|].
  cbn [orb]. destruct data; try discriminate. eauto.
Qed.

Lemma extract_dataOk (part : JsVal) :
  (dataOk part = true -> Returns (extract base64ToUtf8 part)) /\
  (forall parts, part = JArr parts -> forallb dataOk parts = true ->
     Forall (fun p => Returns (extract base64ToUtf8 p)) parts).
Proof.
  induction part as [ | | b | n | s | elems IH | props IH] using JsVal_induction;
    try (split; [intros _; unfold Returns; cbn [extract]; eauto; fail | discriminate]).
  - split; [intros _; unfold Returns; cbn [extract]; eauto|].
    intros parts [= <-] Hall.
    rewrite forallb_forall in Hall. rewrite Forall_forall in IH |- *.
    intros p Hp. apply (IH p Hp). now apply Hall.
  - split; [|discriminate]. intros Hok. cbn [dataOk] in Hok.
    apply andb_true_iff in Hok as [Hdata Hparts]. cbn [extract].
    set (data := optProp (props "body"%string) "data") in *.
    set (mime := props "mimeType"%string) in *.
    assert (Hhead : exists t h,
      (if isStr mime (js "text/plain") && truthy data
       then t <- decodeBody base64ToUtf8 data ;; Ok (t, [])
       else if isStr mime (js "text/html") && truthy data
       then h <- decodeBody base64ToUtf8 data ;; Ok ([], h)
       else Ok ([], [])) = Ok (t, h)).
    { destruct (truthy data) eqn:Et.
      - destruct (isStr mime (js "text/plain") || isStr mime (js "text/html")) eqn:Em.
        + cbn [negb orb] in Hdata.
          destruct (decodeBody_ok data) as (d & Hd);
            [rewrite Hdata; apply orb_true_r|].
          rewrite Hd. cbn [bind]. rewrite !andb_true_r.
          destruct (isStr mime (js "text/plain")); [eauto|].
          destruct (isStr mime (js "text/html")); eauto.
        + apply orb_false_iff in Em as [-> ->]. cbn [andb]. eauto.
      - rewrite !andb_false_r. eauto. }
    destruct Hhead as (t & h & ->). cbn [bind].
    destruct (props "parts"%string) as [ | | | | | parts | ] eqn:E;
      try (unfold Returns; eauto; fail).
    apply extractEach_returns. apply (proj2 (IH "parts"%string) parts E Hparts).
Qed.

Lemma dataOk_fallback (payload : JsVal) :
  dataOk payload = true ->
  dataOk (if truthy payload then payload else obj []) = true.
Proof. destruct (truthy payload); [auto | reflexivity]. Qed.

(** C1 (as amended): on a stack with room for the depth of the payload,
    and with a string (or nothing) for the data of every text part the walk
    reaches, [makeEmailBodyLLMSafe] throws nothing and returns a string,
    whatever the base64 data decode to and whatever else the payload
    holds; on [null], [{}] and a part with no body data and no sub-parts
    the string is empty. *)
Theorem makeEmailBodyLLMSafe_returns (frames : nat) (payload : JsVal)
    (opts : option (option Z)) :
  (height payload <= frames)%nat -> dataOk payload = true ->
  (exists s, makeEmailBodyLLMSafeOnStack base64ToUtf8 frames payload opts = Ok s) /\
  (0 <= maxCharsOf opts -> barePart payload = true ->
   makeEmailBodyLLMSafeOnStack base64ToUtf8 frames payload opts = Ok []).
Proof.
  intros Hfit Hok. rewrite (makeEmailBodyLLMSafeOnStack_agrees _ opts Hfit).
  unfold makeEmailBodyLLMSafe. split.
  - destruct (proj1 (extract_dataOk _) (dataOk_fallback _ Hok)) as ([text html] & ->).
    cbn [bind]. eauto.
  - intros HM Hbare. rewrite (extract_bare _ _ Hbare). cbn [bind].
    cbv iota beta. cbn [nonempty negb andb].
    now rewrite empty_body_pipeline.
Qed.

(** A text part whose data is there and is not a string makes the call
    throw, wherever in the tree it stands first. *)
Lemma extract_number_data (props : string -> JsVal) :
  isStr (props "mimeType"%string) (js "text/plain")
  || isStr (props "mimeType"%string) (js "text/html") = true ->
  truthy (optProp (props "body"%string) "data") = true ->
  isString (optProp (props "body"%string) "data") = false ->
  extract base64ToUtf8 (JObj props)
  = Throw (TypeError (js "data.replace is not a function")).
Proof.
  intros Hmime Ht Hs. cbn [extract]. rewrite Ht. rewrite !andb_true_r.
  unfold decodeBody. rewrite Ht. cbn [negb].
  destruct (isStr (props "mimeType"%string) (js "text/plain")).
  - destruct (optProp (props "body"%string) "data"); try discriminate; reflexivity.
  - cbn [orb] in Hmime. rewrite Hmime.
    destruct (optProp (props "body"%string) "data"); try discriminate; reflexivity.
Qed.

End Stack.

Lemma makeEmailBodyLLMSafe_returns_witness :
  (exists s, makeEmailBodyLLMSafeOnStack Node.base64ToUtf8 3 raggedPayload None = Ok s) /\
  makeEmailBodyLLMSafeOnStack Node.base64ToUtf8 1 JNull None = Ok [] /\
  makeEmailBodyLLMSafeOnStack Node.base64ToUtf8 1 (obj []) None = Ok [] /\
  makeEmailBodyLLMSafeOnStack Node.base64ToUtf8 1
    (obj [("mimeType"%string, JStr (js "text/plain"))]) None = Ok [].
Proof.
  split; [|split; [|split]].
  - apply (@makeEmailBodyLLMSafe_returns Node.base64ToUtf8 3 raggedPayload None).
    + vm_compute. lia.
    + vm_compute. reflexivity.
  - apply (@makeEmailBodyLLMSafe_returns Node.base64ToUtf8 1 JNull None);
      [vm_compute; lia | reflexivity | simpl; lia | reflexivity].
  - apply (@makeEmailBodyLLMSafe_returns Node.base64ToUtf8 1 (obj []) None);
      [vm_compute; lia | reflexivity | simpl; lia | reflexivity].
  - apply (@makeEmailBodyLLMSafe_returns Node.base64ToUtf8 1
             (obj [("mimeType"%string, JStr (js "text/plain"))]) None);
      [vm_compute; lia | reflexivity | simpl; lia | reflexivity].
Defined.

(** C1 (as stated) fails: a plain part whose data is the number 5 makes
    the call throw a [TypeError], whatever the stack. *)
Lemma makeEmailBodyLLMSafe_raises :
  makeEmailBodyLLMSafe Node.base64ToUtf8 numberPayload None
    = Throw (TypeError (js "data.replace is not a function")) /\
  makeEmailBodyLLMSafeOnStack Node.base64ToUtf8 64 numberPayload None
    = Throw (TypeError (js "data.replace is not a function")).
Proof. split; vm_compute; reflexivity. Qed.

(** A chain of containers one deeper than the stack has room for makes the
    call throw a [RangeError], though every part of it is well formed. *)
Example makeEmailBodyLLMSafe_deep_tree :
  wfPayload (nest 64 (leaf "text/plain" hiThereData)) = true /\
  dataOk (nest 64 (leaf "text/plain" hiThereData)) = true /\
  makeEmailBodyLLMSafeOnStack Node.base64ToUtf8 64
    (nest 64 (leaf "text/plain" hiThereData)) None
    = Throw (RangeError (js "Maximum call stack size exceeded")) /\
  makeEmailBodyLLMSafeOnStack Node.base64ToUtf8 65
    (nest 64 (leaf "text/plain" hiThereData)) None
    = Ok (js "Hi there").
Proof. repeat split; vm_compute; reflexivity. Qed.

(** ** The attachment composer and the renderer *)

Lemma validateRecipients_all_valid (emails : list jsstring) (u : unit) :
  validateRecipients emails = Ok u -> forallb validateEmail emails = true.
Proof.
  induction emails as [|e emails IH]; cbn [validateRecipients forallb]; [reflexivity|].
  destruct (validateEmail e); cbn [negb andb]; [exact IH | discriminate].
Qed.

Section Renderer.

Variable existsSync : jsstring -> bool.
Variable basename : jsstring -> jsstring.
Variable sendMailAsync : MailOptions -> Result jsstring.

(** With a renderer whose promise is always fulfilled this is the
    composer of the first part. *)
Lemma createEmailWithNodemailerAsync_fulfilled (sendMail : MailOptions -> jsstring)
    (args : EmailArgs) :
  createEmailWithNodemailerAsync existsSync basename (fun m => Ok (sendMail m)) args
  = createEmailWithNodemailer existsSync basename sendMail args.
Proof.
  unfold createEmailWithNodemailerAsync, createEmailWithNodemailer.
  destruct (validateRecipients (to args)) as [[]|e]; cbn [bind]; [|reflexivity].
  destruct (attachments args) as [paths|]; cbn [bind]; [|reflexivity].
  destruct (prepareAttachments existsSync basename paths []); reflexivity.
Qed.

Lemma prepareAttachments_all_exist (paths : list jsstring) :
  forall acc atts,
    prepareAttachments existsSync basename paths acc = Ok atts ->
    forallb existsSync paths = true.
Proof.
  induction paths as [|p paths IH]; cbn [prepareAttachments forallb]; [reflexivity|].
  intros acc atts. destruct (existsSync p); cbn [negb andb]; [apply IH | discriminate].
Qed.

(** C5 (as amended): on a request that carries an attachment list, the
    only errors [createEmailWithNodemailer] raises itself are the invalid
    recipient, naming the address, and the missing file, naming the path.
    When every [to] address passes the validator and every listed path
    exists it hands the mail to nodemailer and returns what nodemailer
    renders; it fails then only if nodemailer rejects, with nodemailer's
    error. *)
Theorem createEmailWithNodemailerAsync_errors (args : EmailArgs)
    (paths : list jsstring) :
  attachments args = Some paths ->
  let mail :=
    mailOptionsOf args (map (fun p => mkAttachment (basename p) p) paths) in
  (forallb validateEmail (to args) = true -> forallb existsSync paths = true ->
   createEmailWithNodemailerAsync existsSync basename sendMailAsync args
     = sendMailAsync mail) /\
  (forall e,
     createEmailWithNodemailerAsync existsSync basename sendMailAsync args = Throw e ->
     (exists addr, In addr (to args) /\ validateEmail addr = false /\
                   e = Error (js "Recipient email address is invalid: " ++ addr)) \/
     (exists p, In p paths /\ existsSync p = false /\
                e = Error (js "File does not exist: " ++ p)) \/
     (forallb validateEmail (to args) = true /\ forallb existsSync paths = true /\
      sendMailAsync mail = Throw e)).
Proof.
  intros Hatt mail.
  assert (Hok : forallb validateEmail (to args) = true ->
                forallb existsSync paths = true ->
                createEmailWithNodemailerAsync existsSync basename sendMailAsync args
                = sendMailAsync mail).
  { intros Hto Hfiles. unfold createEmailWithNodemailerAsync.
    rewrite Hatt, (validateRecipients_valid _ Hto). cbn [bind].
    rewrite (@prepareAttachments_exist existsSync basename paths Hfiles). cbn [bind app].
    fold mail. destruct (sendMailAsync mail); reflexivity. }
  split; [exact Hok|]. intros e He.
  destruct (forallb validateEmail (to args)) eqn:Hto.
  - destruct (forallb existsSync paths) eqn:Hfiles.
    + right. right. rewrite (Hok eq_refl eq_refl) in He. auto.
    + right. left. unfold createEmailWithNodemailerAsync in He.
      rewrite Hatt, (validateRecipients_valid _ Hto) in He. cbn [bind] in He.
      destruct (prepareAttachments existsSync basename paths []) as [atts|e1] eqn:Hp.
      * pose proof (@prepareAttachments_all_exist paths [] atts Hp) as Hall. congruence.
      * cbn [bind] in He. injection He as <-.
        exact (@prepareAttachments_throws existsSync basename paths [] e1 Hp).
  - left. unfold createEmailWithNodemailerAsync in He.
    destruct (validateRecipients (to args)) as [[]|e0] eqn:Hv.
    + pose proof (@validateRecipients_all_valid (to args) tt Hv) as Hall. congruence.
    + cbn [bind] in He. injection He as <-. exact (@validateRecipients_throws (to args) e0 Hv).
Qed.

End Renderer.

Lemma createEmailWithNodemailerAsync_errors_witness :
  createEmailWithNodemailerAsync (Node.existsIn sampleFiles) Node.basename
    (Node.renderFiles []) copiedArgs
  = Node.renderFiles []
      (mailOptionsOf copiedArgs
         [ mkAttachment (js "a.txt") (js "/tmp/a.txt");
           mkAttachment (js "b.pdf") (js "/tmp/dir/b.pdf") ]) /\
  createEmailWithNodemailerAsync (Node.existsIn [js "/tmp/a.txt"; js "/tmp/dir"])
    Node.basename (Node.renderFiles [js "/tmp/dir"]) directoryArgs
  = Throw (Error (js "EISDIR: illegal operation on a directory, read")).
Proof.
  split.
  - destruct (@createEmailWithNodemailerAsync_errors (Node.existsIn sampleFiles)
                Node.basename (Node.renderFiles []) copiedArgs sampleFiles eq_refl)
      as [Hok _].
    rewrite Hok by (vm_compute; reflexivity). reflexivity.
  - destruct (@createEmailWithNodemailerAsync_errors
                (Node.existsIn [js "/tmp/a.txt"; js "/tmp/dir"])
                Node.basename (Node.renderFiles [js "/tmp/dir"]) directoryArgs
                [js "/tmp/a.txt"; js "/tmp/dir"] eq_refl)
      as [Hok _].
    rewrite Hok by (vm_compute; reflexivity). vm_compute. reflexivity.
Defined.

(** C5 (as stated) fails: a request with valid recipients and no
    [attachments] field makes the loop over the attachments throw a
    [TypeError], which is neither of the two error kinds. *)
Lemma createEmailWithNodemailerAsync_absent_attachments :
  forallb validateEmail (to (plainArgs [js "ann@example.com"])) = true /\
  attachments (plainArgs [js "ann@example.com"]) = None /\
  createEmailWithNodemailerAsync (Node.existsIn sampleFiles) Node.basename
    (Node.renderFiles []) (plainArgs [js "ann@example.com"])
    = Throw (TypeError (js "validatedArgs.attachments is not iterable")).
Proof. repeat split; vm_compute; reflexivity. Qed.
